(** * ext-flashcards: the review algorithm and the scheduler

    A shallow embedding of [src/core/algorithm.js], [src/core/flashcards.js],
    [src/core/scheduler.js] and the constants they read from
    [src/utils/constants.js], with the properties of the specification
    stated over it.

    Conventions of the embedding.
    - A JavaScript number is an exact rational ([Q]) or [NaN]; the two
      non-numbers the code meets, [undefined] and [null], are values of
      their own ([jsval]).  No operation of the modelled code divides by
      anything but the literal 100, so no infinity arises.
    - [calculateInitialEase], whose result turns on which side of a half
      a sum falls, works with the operations of the machine: the exact
      result rounded to binary64 ([binary64]).  Elsewhere the arithmetic is
      exact.
    - [Date.now()] and [Math.random()] are arguments ([now], [rnd]) of the
      functions that call them; so is what a read of the storage comes
      to, for the methods of [StorageRead].
    - The methods that mutate [this] return the new object next to their
      result; the methods that may throw return a [result].
    - No method changes a progress record in place ([calculateReview] and
      [updateFlashcardProgress] build new objects), so records are plain
      values; what is shared and mutated, the manager's [progress] and
      the storage area, is threaded as state. *)

From Stdlib Require Import QArith Qround Qminmax Qabs Qpower Lqa ZArith Lia.
From stdpp Require Import gmap strings list.

Local Open Scope Q_scope.

(** ** JavaScript values *)

Inductive jsval : Type :=
  | Undefined
  | Null
  | NaN
  | Num (q : Q).

(** [ToNumber]: [None] stands for NaN. *)
Definition ToNumber (v : jsval) : option Q :=
  match v with
  | Undefined => None
  | Null => Some 0
  | NaN => None
  | Num q => Some q
  end.

(** [ToBoolean]: of the values above only a non-zero number is truthy. *)
Definition truthy (v : jsval) : bool :=
  match v with
  | Num q => negb (Qeq_bool q 0)
  | _ => false
  end.

Definition arith (f : Q -> Q -> Q) (a b : jsval) : jsval :=
  match ToNumber a, ToNumber b with
  | Some x, Some y => Num (f x y)
  | _, _ => NaN
  end.

Definition js_add : jsval -> jsval -> jsval := arith Qplus.
Definition js_sub : jsval -> jsval -> jsval := arith Qminus.
Definition js_mul : jsval -> jsval -> jsval := arith Qmult.
(** Only used with a non-zero literal as divisor. *)
Definition js_div : jsval -> jsval -> jsval := arith Qdiv.

Definition Math_max : jsval -> jsval -> jsval := arith Qmax.
Definition Math_min : jsval -> jsval -> jsval := arith Qmin.

(** [Math.round] rounds to the nearest integer, halves upwards. *)
Definition round_half_up (q : Q) : Q := inject_Z (Qfloor (q + (1 # 2))).

Definition Math_round (a : jsval) : jsval :=
  match ToNumber a with
  | Some x => Num (round_half_up x)
  | None => NaN
  end.

(** [a >= b] and [a < b]: false as soon as one side is NaN. *)
Definition js_ge (a b : jsval) : bool :=
  match ToNumber a, ToNumber b with
  | Some x, Some y => Qle_bool y x
  | _, _ => false
  end.

Definition js_lt (a b : jsval) : bool :=
  match ToNumber a, ToNumber b with
  | Some x, Some y => negb (Qle_bool y x)
  | _, _ => false
  end.

(** [a === 0] *)
Definition is_zero (a : jsval) : bool :=
  match a with
  | Num q => Qeq_bool q 0
  | _ => false
  end.

(** A destructuring default [x = d] applies to [undefined] only. *)
Definition default_to (d v : jsval) : jsval :=
  match v with
  | Undefined => d
  | _ => v
  end.

Declare Scope js_scope.
Delimit Scope js_scope with js.
Infix "+" := js_add : js_scope.
Infix "-" := js_sub : js_scope.
Infix "*" := js_mul : js_scope.
Infix "/" := js_div : js_scope.

(** ** binary64 *)

(** A JavaScript number is a binary64 value, and an arithmetic operation
    on two of them gives the exact result rounded to the nearest binary64
    value, a tie going to the even significand.  [binary64 x] is that
    rounding of the rational [x]: a significand of 53 bits, exponents
    down to the subnormal numbers; the overflow to infinity beyond
    2^1024 is left out. *)

(** The floor of the binary logarithm of a positive rational. *)
Definition Qlog2 (x : Q) : Z :=
  let k := (Z.log2 (Qnum x) - Z.log2 (Zpos (Qden x)))%Z in
  if Qle_bool (2 ^ k) x then k else (k - 1)%Z.

(** The nearest integer, a half going to the even neighbour. *)
Definition round_half_even (y : Q) : Z :=
  let f := Qfloor y in
  match Qcompare (y - inject_Z f) (1 # 2) with
  | Lt => f
  | Gt => (f + 1)%Z
  | Eq => if Z.even f then f else (f + 1)%Z
  end.

Definition binary64 (x : Q) : Q :=
  if Qeq_bool x 0 then 0
  else
    let e := Z.max (Qlog2 (Qabs x) - 52) (-1074) in
    inject_Z (round_half_even (x / 2 ^ e)) * 2 ^ e.

(** The four operations as the machine performs them. *)
Definition f64_add : jsval -> jsval -> jsval :=
  arith (fun x y => binary64 (x + y)).
Definition f64_sub : jsval -> jsval -> jsval :=
  arith (fun x y => binary64 (x - y)).
Definition f64_mul : jsval -> jsval -> jsval :=
  arith (fun x y => binary64 (x * y)).
Definition f64_div : jsval -> jsval -> jsval :=
  arith (fun x y => binary64 (x / y)).

Declare Scope f64_scope.
Delimit Scope f64_scope with f64.
Infix "+" := f64_add : f64_scope.
Infix "-" := f64_sub : f64_scope.
Infix "*" := f64_mul : f64_scope.
Infix "/" := f64_div : f64_scope.

(** Reading a value as a number: [num_eq v q] says that [v] is the number
    [q], [num_le v q] that it is a number at most [q]. *)
Definition num_eq (v : jsval) (q : Q) : Prop :=
  match v with
  | Num x => x == q
  | _ => False
  end.

Definition num_le (v : jsval) (q : Q) : Prop :=
  match v with
  | Num x => x <= q
  | _ => False
  end.

Definition val_le (v w : jsval) : Prop :=
  match v, w with
  | Num x, Num y => x <= y
  | _, _ => False
  end.

(** ** constants.js *)

Record Config : Type := {
  baseEase : Q;
  intervalChangeHard : Q;
  easyBonus : Q;
  enableLoadBalancer : bool;
  maxIntervalDays : Q;
  maxLinkContribution : Q
}.

Definition DEFAULT_ALGORITHM_CONFIG : Config := {|
  baseEase := 250;
  intervalChangeHard := 50;
  easyBonus := 130;
  enableLoadBalancer := true;
  maxIntervalDays := 36525;
  maxLinkContribution := 50
|}.

Module REVIEW_DIFFICULTY.
Definition HARD : string := "hard".
Definition GOOD : string := "good".
Definition EASY : string := "easy".
End REVIEW_DIFFICULTY.

(** [DEFAULT_INTERVALS[difficulty]]; a key the table does not hold reads
    as [undefined] (a key found on [Object.prototype] reads as a function,
    which every use below coerces to NaN just as it does [undefined]). *)
Definition DEFAULT_INTERVALS (difficulty : string) : jsval :=
  if String.eqb difficulty REVIEW_DIFFICULTY.HARD then Num (1 # 2)
  else if String.eqb difficulty REVIEW_DIFFICULTY.GOOD then Num 1
  else if String.eqb difficulty REVIEW_DIFFICULTY.EASY then Num 4
  else Undefined.

(** ** algorithm.js *)

(** The per-card progress object.  [difficulty] is never read by the
    modelled code; [None] is its [null]. *)
Record Progress : Type := {
  reviewCount : jsval;
  ease : jsval;
  interval : jsval;
  lastReview : jsval;
  dueDate : jsval;
  difficulty : option string
}.

Record SpacedRepetitionAlgorithm : Type := {
  config : Config;
  configLoaded : bool
}.

(** [new SpacedRepetitionAlgorithm()] *)
Definition new_algorithm : SpacedRepetitionAlgorithm :=
  {| config := DEFAULT_ALGORITHM_CONFIG; configLoaded := false |}.

Definition applyLoadBalancer (rnd : Q) (interval : jsval) : jsval :=
  if js_lt interval (Num 1) then interval
  else
    let variation := Num (5 # 100) in
    let randomFactor := (Num 1 + (Num rnd * Num 2 - Num 1) * variation)%js in
    (interval * randomFactor)%js.

(** The branch of [calculateReview] on [reviewCount] and [difficulty]:
    [newInterval] and [newEase] as they stand before the load balancer
    and the cap. *)
Definition nextIntervalAndEase (cfg : Config)
    (reviewCount ease interval : jsval) (difficulty : string)
    : jsval * jsval :=
  if is_zero reviewCount then
    (DEFAULT_INTERVALS difficulty, ease)
  else if String.eqb difficulty REVIEW_DIFFICULTY.HARD then
    ((interval * (Num (intervalChangeHard cfg) / Num 100))%js,
     Math_max (Num 130) (ease - Num 20)%js)
  else if String.eqb difficulty REVIEW_DIFFICULTY.GOOD then
    ((interval * (ease / Num 100))%js, ease)
  else if String.eqb difficulty REVIEW_DIFFICULTY.EASY then
    ((interval * (ease / Num 100) * (Num (easyBonus cfg) / Num 100))%js,
     (ease + Num 15)%js)
  else
    (interval, ease).

(** The body of [calculateReview] once [this.config] is settled. *)
Definition review (cfg : Config) (now : Z) (rnd : Q)
    (flashcardData : Progress) (difficulty : string) : Progress :=
  let reviewCount := default_to (Num 0) (reviewCount flashcardData) in
  let ease := default_to (Num (baseEase cfg)) (ease flashcardData) in
  let interval := default_to (Num 0) (interval flashcardData) in
  let now := Num (inject_Z now) in
  let '(newInterval, newEase) :=
    nextIntervalAndEase cfg reviewCount ease interval difficulty in
  let newInterval :=
    if enableLoadBalancer cfg && js_ge newInterval (Num 1)
    then applyLoadBalancer rnd newInterval
    else newInterval in
  let newInterval := Math_min newInterval (Num (maxIntervalDays cfg)) in
  let dueDate :=
    (now + (newInterval * Num 24 * Num 60 * Num 60 * Num 1000))%js in
  {| reviewCount := (reviewCount + Num 1)%js;
     ease := Math_round newEase;
     interval := (Math_round (newInterval * Num 100) / Num 100)%js;
     lastReview := now;
     dueDate := dueDate;
     difficulty := Some difficulty |}.

(** [calculateReview] first falls back to the default configuration when
    none was loaded, and leaves that assignment behind in [this]. *)
Definition calculateReview (this : SpacedRepetitionAlgorithm) (now : Z)
    (rnd : Q) (flashcardData : Progress) (difficulty : string)
    : Progress * SpacedRepetitionAlgorithm :=
  let this :=
    if negb (configLoaded this)
    then {| config := DEFAULT_ALGORITHM_CONFIG;
            configLoaded := configLoaded this |}
    else this in
  (review (config this) now rnd flashcardData difficulty, this).

(** [options.linkedEase] of [calculateInitialEase(options = {})].  The
    result turns on which side of a half the sum falls, which the
    roundings of the machine's arithmetic decide when the exact value is
    a half: the operations are the binary64 ones. *)
Definition calculateInitialEase (this : SpacedRepetitionAlgorithm)
    (linkedEase : jsval) : jsval :=
  let ease := Num (baseEase (config this)) in
  let ease :=
    if truthy linkedEase
       && negb (Qle_bool (maxLinkContribution (config this)) 0)
    then
      let contribution :=
        ((linkedEase - Num (baseEase (config this)))
         * (Num (maxLinkContribution (config this)) / Num 100))%f64 in
      (Num (baseEase (config this)) + contribution)%f64
    else ease in
  Math_max (Num 130) (Math_round ease).

Definition isDue (now : Z) (flashcardData : Progress) : bool :=
  if negb (truthy (dueDate flashcardData)) then true
  else js_ge (Num (inject_Z now)) (dueDate flashcardData).

(** ** Results of methods that may throw *)

Inductive error : Type :=
  | TypeError (msg : string).

Inductive result (A : Type) : Type :=
  | Ret (a : A)
  | Throw (e : error).
Arguments Ret {A} a.
Arguments Throw {A} e.

(** A method over a mutable state [S]: what it returns or throws, and the
    state it leaves (mutations made before a throw stay). *)
Definition M (S A : Type) : Type := S -> result A * S.

Definition ret {S A : Type} (a : A) : M S A := fun s => (Ret a, s).
Definition throw {S A : Type} (e : error) : M S A := fun s => (Throw e, s).
Definition bind {S A B : Type} (m : M S A) (k : A -> M S B) : M S B :=
  fun s =>
    match m s with
    | (Ret a, s') => k a s'
    | (Throw e, s') => (Throw e, s')
    end.

(** [try { m } catch (error) { h error }] *)
Definition try_catch {S A : Type} (m : M S A) (h : error -> M S A) : M S A :=
  fun s =>
    match m s with
    | (Ret a, s') => (Ret a, s')
    | (Throw e, s') => h e s'
    end.

(** stdpp's notations [x ← m; k] and [m;; k] stand for [bind]. *)
#[global] Instance M_ret {S : Type} : MRet (M S) := fun A a => ret a.
#[global] Instance M_bind {S : Type} : MBind (M S) := fun A B k m => bind m k.

Fixpoint mapM {S A B : Type} (f : A -> M S B) (l : list A) : M S (list B) :=
  match l with
  | [] => ret []
  | x :: l' =>
      y ← f x;
      ys ← mapM f l';
      ret (y :: ys)
  end.

(** [array.includes(x)] on an array of strings. *)
Definition includes (l : list string) (x : string) : bool :=
  existsb (String.eqb x) l.

(** ** storage.js, as far as the progress state goes *)

(** The object kept under [STORAGE_KEYS.PROGRESS]: [repeatLater] may be
    missing from it (flashcards.js, line 134, provides for that). *)
Record ProgressState : Type := {
  completed : list string;
  repeatLater : option (list string);
  flashcardData : gmap string Progress
}.

(** [stored] is what the storage area holds under the progress key
    ([None]: nothing yet); [writable] tells whether a write succeeds. *)
Record StorageManager : Type := {
  stored : option ProgressState;
  writable : bool
}.

Definition empty_progress_state : ProgressState :=
  {| completed := []; repeatLater := Some []; flashcardData := ∅ |}.

(** [storage.getProgress()] when the read is answered: the stored object,
    or the default one.  [StorageRead] below has the read that fails or
    throws. *)
Definition storage_getProgress (st : StorageManager) : ProgressState :=
  match stored st with
  | Some p => p
  | None => empty_progress_state
  end.

(** [storage.saveProgress(p)]: returns the success flag; a failed write
    leaves the area as it was. *)
Definition storage_saveProgress (st : StorageManager) (p : ProgressState)
    : bool * StorageManager :=
  if writable st
  then (true, {| stored := Some p; writable := writable st |})
  else (false, st).

(** ** flashcards.js *)

(** A card of the catalog; its tags and creation date are not read by
    the modelled code. *)
Record Flashcard : Type := {
  id : string;
  question : string;
  answer : string
}.

Record FlashcardManager : Type := {
  flashcards : list Flashcard;
  progress : option ProgressState
}.

(** The manager's methods run on the manager and the storage singleton. *)
Abbreviation FM := (M (FlashcardManager * StorageManager)).

Definition null_progress : error :=
  TypeError "Cannot read properties of null".
Definition undefined_repeatLater : error :=
  TypeError "Cannot read properties of undefined".

(** [this] and the [storage] singleton the module imports. *)
Definition this : FM FlashcardManager := fun s => (Ret (fst s), s).
Definition storage : FM StorageManager := fun s => (Ret (snd s), s).

(** [this.progress = p] *)
Definition set_progress (p : option ProgressState) : FM unit :=
  fun s =>
    (Ret tt, ({| flashcards := flashcards (fst s); progress := p |}, snd s)).

Definition set_storage (st : StorageManager) : FM unit :=
  fun s => (Ret tt, (fst s, st)).

Definition loadProgress : FM unit :=
  st ← storage;
  set_progress (Some (storage_getProgress st)).

(** [storage.saveProgress] catches whatever its write raises and answers
    with a flag, so the handler of [saveProgress] has nothing to rethrow. *)
Definition saveProgress : FM unit :=
  fm ← this;
  match progress fm with
  | None => ret tt
  | Some p =>
      try_catch
        (st ← storage;
         set_storage (snd (storage_saveProgress st p)))
        (fun e => throw e)
  end.

Definition getAllFlashcards : FM (list Flashcard) :=
  fm ← this; ret (flashcards fm).

Definition getFlashcardById (i : string) : FM (option Flashcard) :=
  fm ← this;
  ret (List.find (fun fc => String.eqb (id fc) i) (flashcards fm)).

Definition default_progress : Progress :=
  {| reviewCount := Num 0; ease := Null; interval := Num 0;
     lastReview := Null; dueDate := Null; difficulty := None |}.

Definition getFlashcardProgress (i : string) : FM Progress :=
  fm ← this;
  match progress fm with
  | None => throw null_progress
  | Some p =>
      ret (match flashcardData p !! i with
           | Some d => d
           | None => default_progress
           end)
  end.

(** [{...a, ...b}] on progress objects, a field holding [Undefined] (or
    no difficulty) counting as absent. *)
Definition spread (a b : Progress) : Progress :=
  let pick (x y : jsval) := match y with Undefined => x | _ => y end in
  {| reviewCount := pick (reviewCount a) (reviewCount b);
     ease := pick (ease a) (ease b);
     interval := pick (interval a) (interval b);
     lastReview := pick (lastReview a) (lastReview b);
     dueDate := pick (dueDate a) (dueDate b);
     difficulty := match difficulty b with
                   | Some d => Some d
                   | None => difficulty a
                   end |}.

(** [{}] *)
Definition empty_object : Progress :=
  {| reviewCount := Undefined; ease := Undefined; interval := Undefined;
     lastReview := Undefined; dueDate := Undefined; difficulty := None |}.

Definition updateFlashcardProgress (i : string) (progressData : Progress)
    : FM unit :=
  fm ← this;
  match progress fm with
  | None => throw null_progress
  | Some p =>
      let old := match flashcardData p !! i with
                 | Some d => d
                 | None => empty_object
                 end in
      set_progress
        (Some {| completed := completed p;
                 repeatLater := repeatLater p;
                 flashcardData :=
                   <[i := spread old progressData]> (flashcardData p) |});;
      saveProgress
  end.

Definition markAsDone (i : string) : FM unit :=
  fm ← this;
  match progress fm with
  | None => throw null_progress
  | Some p =>
      if negb (includes (completed p) i) then
        set_progress
          (Some {| completed := completed p ++ [i];
                   repeatLater := repeatLater p;
                   flashcardData := flashcardData p |});;
        saveProgress
      else ret tt
  end.

(** [FlashcardManager.markForLater] (the scheduler has a method of the
    same name).  The assignment [this.progress.repeatLater = []] for a
    missing queue is made whether or not the id is pushed. *)
Definition FlashcardManager_markForLater (i : string) : FM unit :=
  fm ← this;
  match progress fm with
  | None => loadProgress
  | Some _ => ret tt
  end;;
  fm ← this;
  match progress fm with
  | None => ret tt
  | Some p =>
      let later := match repeatLater p with
                   | Some l => l
                   | None => []
                   end in
      if negb (includes later i) then
        set_progress
          (Some {| completed := completed p;
                   repeatLater := Some (later ++ [i]);
                   flashcardData := flashcardData p |});;
        saveProgress
      else
        set_progress
          (Some {| completed := completed p;
                   repeatLater := Some later;
                   flashcardData := flashcardData p |})
  end.

Definition removeFromLater (i : string) : FM unit :=
  fm ← this;
  match progress fm with
  | None => throw null_progress
  | Some p =>
      match repeatLater p with
      | None => throw undefined_repeatLater
      | Some later =>
          set_progress
            (Some {| completed := completed p;
                     repeatLater :=
                       Some (List.filter (fun fcId => negb (String.eqb fcId i))
                                         later);
                     flashcardData := flashcardData p |});;
          saveProgress
      end
  end.

Definition getUnshownFlashcards : FM (list string) :=
  fm ← this;
  let allIds := map id (flashcards fm) in
  match progress fm with
  | None => throw null_progress
  | Some p =>
      let shownIds := completed p in
      ret (List.filter (fun i => negb (includes shownIds i)) allIds)
  end.

(** ** scheduler.js *)

(** The scheduler holds references to the manager and algorithm
    singletons; nothing else writes to them in the modelled code, so the
    objects are kept in the scheduler's own state. *)
Record Scheduler : Type := {
  flashcardManager : option FlashcardManager;
  algorithm : option SpacedRepetitionAlgorithm
}.



Abbreviation SM := (M (Scheduler * StorageManager)).

Definition scheduler : SM Scheduler := fun s => (Ret (fst s), s).

Definition null_manager : error :=
  TypeError "Cannot read properties of null".

(** [this.flashcardManager.method(...)] *)
Definition on_manager {A : Type} (m : FM A) : SM A :=
  fun s =>
    match flashcardManager (fst s) with
    | None => (Throw null_manager, s)
    | Some fm =>
        let '(r, (fm', st')) := m (fm, snd s) in
        (r, ({| flashcardManager := Some fm';
                algorithm := algorithm (fst s) |}, st'))
    end.

(** [this.algorithm = alg], the trace [calculateReview] leaves. *)
Definition set_algorithm (alg : SpacedRepetitionAlgorithm) : SM unit :=
  fun s =>
    (Ret tt, ({| flashcardManager := flashcardManager (fst s);
                 algorithm := Some alg |}, snd s)).

Definition dependencies_set (sch : Scheduler) : bool :=
  match flashcardManager sch, algorithm sch with
  | Some _, Some _ => true
  | _, _ => false
  end.

Definition manager_set (sch : Scheduler) : bool :=
  match flashcardManager sch with
  | Some _ => true
  | None => false
  end.

(** [v || 0] *)
Definition or_zero (v : jsval) : jsval := if truthy v then v else Num 0.

(** The comparator given to [sort] in [getDueFlashcard]. *)
Definition compareDue (a b : Flashcard * Progress) : jsval :=
  if truthy (dueDate (snd a)) && truthy (dueDate (snd b))
  then (dueDate (snd a) - dueDate (snd b))%js
  else (or_zero (reviewCount (snd a)) - or_zero (reviewCount (snd b)))%js.

(** [SortCompare] of ECMAScript: the comparator's answer as a number, NaN
    read as 0. *)
Definition SortCompare {A : Type} (cmp : A -> A -> jsval) (x y : A) : Q :=
  match ToNumber (cmp x y) with
  | Some q => q
  | None => 0
  end.

(** [Array.prototype.sort] is stable; it is modelled as the stable
    insertion sort, with which every conforming implementation agrees
    whenever the comparator orders the array consistently. *)
Fixpoint sort_insert {A : Type} (cmp : A -> A -> jsval) (x : A) (l : list A)
    : list A :=
  match l with
  | [] => [x]
  | y :: l' =>
      if Qle_bool (SortCompare cmp x y) 0 then x :: y :: l'
      else y :: sort_insert cmp x l'
  end.

Fixpoint js_sort {A : Type} (cmp : A -> A -> jsval) (l : list A) : list A :=
  match l with
  | [] => []
  | x :: l' => sort_insert cmp x (js_sort cmp l')
  end.

Definition getDueFlashcard (now : Z) : SM (option (Flashcard * Progress)) :=
  sch ← scheduler;
  if negb (dependencies_set sch) then ret None
  else
    allFlashcards ← on_manager getAllFlashcards;
    withProgress ←
      mapM (fun fc =>
              fcProgress ← on_manager (getFlashcardProgress (id fc));
              ret (fc, fcProgress))
           allFlashcards;
    let dueFlashcards :=
      js_sort compareDue
        (List.filter
           (fun x => negb (truthy (dueDate (snd x))) || isDue now (snd x))
           withProgress) in
    ret (head dueFlashcards).

(** [Math.floor(Math.random() * n)] as an index. *)
Definition random_index (rnd : Q) (n : nat) : nat :=
  Z.to_nat (Qfloor (rnd * inject_Z (Z.of_nat n))).

Definition getUnshownFlashcard (rnd : Q)
    : SM (option (Flashcard * Progress)) :=
  sch ← scheduler;
  if negb (manager_set sch) then ret None
  else
    unshownIds ← on_manager getUnshownFlashcards;
    match unshownIds with
    | [] => ret None
    | _ =>
        match unshownIds !! random_index rnd (length unshownIds) with
        | None => ret None
        | Some selectedId =>
            flashcard ← on_manager (getFlashcardById selectedId);
            match flashcard with
            | Some fc =>
                fcProgress ← on_manager (getFlashcardProgress selectedId);
                ret (Some (fc, fcProgress))
            | None => ret None
            end
        end
    end.

Definition getLaterFlashcard : SM (option (Flashcard * Progress)) :=
  sch ← scheduler;
  match flashcardManager sch with
  | None => ret None
  | Some fm =>
      match progress fm with
      | None => throw null_progress
      | Some p =>
          match repeatLater p with
          | None => throw undefined_repeatLater
          | Some [] => ret None
          | Some (selectedId :: _) =>
              flashcard ← on_manager (getFlashcardById selectedId);
              match flashcard with
              | Some fc =>
                  fcProgress ← on_manager (getFlashcardProgress selectedId);
                  ret (Some (fc, fcProgress))
              | None => ret None
              end
          end
      end
  end.

Definition getNextFlashcard (now : Z) (rnd : Q)
    : SM (option (Flashcard * Progress)) :=
  sch ← scheduler;
  if negb (dependencies_set sch) then ret None
  else
    dueFlashcard ← getDueFlashcard now;
    match dueFlashcard with
    | Some r => ret (Some r)
    | None =>
        unshownFlashcard ← getUnshownFlashcard rnd;
        match unshownFlashcard with
        | Some r => ret (Some r)
        | None =>
            laterFlashcard ← getLaterFlashcard;
            match laterFlashcard with
            | Some r => ret (Some r)
            | None => ret None
            end
        end
    end.

Definition recordReview (flashcardId difficulty : string) (now : Z) (rnd : Q)
    : SM unit :=
  sch ← scheduler;
  match flashcardManager sch, algorithm sch with
  | Some _, Some alg =>
      currentProgress ← on_manager (getFlashcardProgress flashcardId);
      let '(updatedProgress, alg') :=
        calculateReview alg now rnd currentProgress difficulty in
      set_algorithm alg';;
      on_manager (updateFlashcardProgress flashcardId updatedProgress);;
      if String.eqb difficulty REVIEW_DIFFICULTY.GOOD
         || String.eqb difficulty REVIEW_DIFFICULTY.EASY
      then
        on_manager (markAsDone flashcardId);;
        on_manager (removeFromLater flashcardId)
      else ret tt
  | _, _ => ret tt
  end.

Definition markForLater (flashcardId : string) : SM unit :=
  sch ← scheduler;
  if negb (manager_set sch) then ret tt
  else
    try_catch
      (on_manager (FlashcardManager_markForLater flashcardId))
      (fun e => throw e).

Record Stats : Type := {
  due : nat;
  new : nat;
  later : nat;
  total : nat
}.

(** One round of the [forEach] of [getSchedulingStats]; [acc] holds
    [dueCount], [newCount] and [laterCount]. *)
Definition count_flashcard (now : Z) (progress : option ProgressState)
    (acc : nat * nat * nat) (fc : Flashcard) : SM (nat * nat * nat) :=
  let '(dueCount, newCount, laterCount) := acc in
  fcProgress ← on_manager (getFlashcardProgress (id fc));
  let '(dueCount, newCount) :=
    if is_zero (reviewCount fcProgress) then (dueCount, S newCount)
    else if isDue now fcProgress then (S dueCount, newCount)
    else (dueCount, newCount) in
  match progress with
  | None => throw null_progress
  | Some p =>
      match repeatLater p with
      | None => throw undefined_repeatLater
      | Some l =>
          if includes l (id fc)
          then ret (dueCount, newCount, S laterCount)
          else ret (dueCount, newCount, laterCount)
      end
  end.

Fixpoint forEach {S A B : Type} (f : B -> A -> M S B) (l : list A) (acc : B)
    : M S B :=
  match l with
  | [] => ret acc
  | x :: l' => acc' ← f acc x; forEach f l' acc'
  end.

Definition getSchedulingStats (now : Z) : SM Stats :=
  sch ← scheduler;
  match flashcardManager sch, algorithm sch with
  | Some fm, Some _ =>
      allFlashcards ← on_manager getAllFlashcards;
      let progress := progress fm in
      counts ← forEach (count_flashcard now progress) allFlashcards
                 (0, 0, 0)%nat;
      let '(dueCount, newCount, laterCount) := counts in
      ret {| due := dueCount; new := newCount; later := laterCount;
             total := length allFlashcards |}
  | _, _ => ret {| due := 0; new := 0; later := 0; total := 0 |}
  end.

Definition hasFlashcardsAvailable (now : Z) (rnd : Q) : SM bool :=
  sch ← scheduler;
  if negb (dependencies_set sch) then ret false
  else
    next ← getNextFlashcard now rnd;
    ret (match next with Some _ => true | None => false end).

(** ** storage.js and its callers: a read the storage does not answer *)

(** [StorageManager.get] hands a read to [chrome.storage.local.get] with
    no handler around the call, so that an exception of that call rejects
    the promise [get] returns, and with it [getProgress], [loadProgress]
    and the methods that await them.  Like [Date.now()], what the read
    comes to is an argument of the methods that depend on it.  The
    definitions of the same names above are these with a read that is
    answered. *)
Module StorageRead.

Inductive outcome : Type :=
  | Answers
  | Fails
  | Throws (e : error).

(** [get(key, defaultValue)] on the area's value under the key: the
    stored value, or the default when there is none; the default again
    when the read fails with [chrome.runtime.lastError] set (or, without
    [chrome.storage], when [localStorage] throws, which [get] catches);
    a rejection when [chrome.storage.local.get] throws. *)
Definition get {A : Type} (r : outcome) (value : option A) (defaultValue : A)
    : result A :=
  match r with
  | Answers =>
      Ret (match value with
           | Some v => v
           | None => defaultValue
           end)
  | Fails => Ret defaultValue
  | Throws e => Throw e
  end.

Definition getProgress (r : outcome) (st : StorageManager)
    : result ProgressState :=
  get r (stored st) empty_progress_state.

(** [this.progress = await storage.getProgress()]: nothing is assigned
    when the promise rejects. *)
Definition loadProgress (r : outcome) : FM unit :=
  st ← storage;
  match getProgress r st with
  | Ret p => set_progress (Some p)
  | Throw e => throw e
  end.

Definition FlashcardManager_markForLater (r : outcome) (i : string)
    : FM unit :=
  fm ← this;
  match progress fm with
  | None => loadProgress r
  | Some _ => ret tt
  end;;
  fm ← this;
  match progress fm with
  | None => ret tt
  | Some p =>
      let later := match repeatLater p with
                   | Some l => l
                   | None => []
                   end in
      if negb (includes later i) then
        set_progress
          (Some {| completed := completed p;
                   repeatLater := Some (later ++ [i]);
                   flashcardData := flashcardData p |});;
        saveProgress
      else
        set_progress
          (Some {| completed := completed p;
                   repeatLater := Some later;
                   flashcardData := flashcardData p |})
  end.

(** [Scheduler.markForLater] *)
Definition markForLater (r : outcome) (flashcardId : string) : SM unit :=
  sch ← scheduler;
  if negb (manager_set sch) then ret tt
  else
    try_catch
      (on_manager (FlashcardManager_markForLater r flashcardId))
      (fun e => throw e).



End StorageRead.

(** * Configuration, statistics and the excluded pages

    The methods of the three modules that the scheduler does not call.
    Two more divisions occur here: [getDaysUntilReview] divides by the
    number of milliseconds of a day, a literal, and [getProgressStats] by
    the size of the catalog, behind its test [total > 0]. *)

(** ** algorithm.js: the configuration *)

(** An object holding some of the configuration keys: the argument of
    [updateConfig], or what the storage keeps under
    [STORAGE_KEYS.ALGORITHM_CONFIG]. *)
Record PartialConfig : Type := {
  opt_baseEase : option Q;
  opt_intervalChangeHard : option Q;
  opt_easyBonus : option Q;
  opt_enableLoadBalancer : option bool;
  opt_maxIntervalDays : option Q;
  opt_maxLinkContribution : option Q
}.

Definition override {A : Type} (old : A) (new : option A) : A :=
  match new with
  | Some x => x
  | None => old
  end.

(** [{ ...c, ...u }] *)
Definition spread_config (c : Config) (u : PartialConfig) : Config :=
  {| baseEase := override (baseEase c) (opt_baseEase u);
     intervalChangeHard :=
       override (intervalChangeHard c) (opt_intervalChangeHard u);
     easyBonus := override (easyBonus c) (opt_easyBonus u);
     enableLoadBalancer :=
       override (enableLoadBalancer c) (opt_enableLoadBalancer u);
     maxIntervalDays := override (maxIntervalDays c) (opt_maxIntervalDays u);
     maxLinkContribution :=
       override (maxLinkContribution c) (opt_maxLinkContribution u) |}.

(** A whole configuration as the object the storage is given. *)
Definition whole (c : Config) : PartialConfig :=
  {| opt_baseEase := Some (baseEase c);
     opt_intervalChangeHard := Some (intervalChangeHard c);
     opt_easyBonus := Some (easyBonus c);
     opt_enableLoadBalancer := Some (enableLoadBalancer c);
     opt_maxIntervalDays := Some (maxIntervalDays c);
     opt_maxLinkContribution := Some (maxLinkContribution c) |}.

(** The storage area under [STORAGE_KEYS.ALGORITHM_CONFIG] (the keys of
    the area are independent of one another): the stored object, if any,
    and whether a write succeeds. *)
Record ConfigStorage : Type := {
  storedConfig : option PartialConfig;
  configWritable : bool
}.

(** [storage.getAlgorithmConfig()]: the stored object, or [null]. *)
Definition storage_getAlgorithmConfig (st : ConfigStorage)
    : option PartialConfig :=
  storedConfig st.

(** [storage.saveAlgorithmConfig(config)] *)
Definition storage_saveAlgorithmConfig (st : ConfigStorage)
    (c : PartialConfig) : bool * ConfigStorage :=
  if configWritable st
  then (true, {| storedConfig := Some c; configWritable := configWritable st |})
  else (false, st).

Definition loadConfig (this : SpacedRepetitionAlgorithm) (st : ConfigStorage)
    : Config * SpacedRepetitionAlgorithm :=
  let this :=
    if negb (configLoaded this) then
      let savedConfig := storage_getAlgorithmConfig st in
      {| config := match savedConfig with
                   | Some saved => spread_config DEFAULT_ALGORITHM_CONFIG saved
                   | None => DEFAULT_ALGORITHM_CONFIG
                   end;
         configLoaded := true |}
    else this in
  (config this, this).

Definition ensureConfigLoaded (this : SpacedRepetitionAlgorithm)
    (st : ConfigStorage) : SpacedRepetitionAlgorithm :=
  if negb (configLoaded this) then snd (loadConfig this st) else this.

Definition updateConfig (this : SpacedRepetitionAlgorithm)
    (newConfig : PartialConfig) (st : ConfigStorage)
    : SpacedRepetitionAlgorithm * ConfigStorage :=
  let this := {| config := spread_config (config this) newConfig;
                 configLoaded := configLoaded this |} in
  (this, snd (storage_saveAlgorithmConfig st (whole (config this)))).

(** ** algorithm.js: days until review, reset *)

Definition getDaysUntilReview (now : Z) (flashcardData : Progress) : jsval :=
  if negb (truthy (dueDate flashcardData)) then Num 0
  else
    let diff := (dueDate flashcardData - Num (inject_Z now))%js in
    Math_round (diff / (Num 24 * Num 60 * Num 60 * Num 1000))%js.

Definition resetFlashcard (this : SpacedRepetitionAlgorithm)
    (flashcardData : Progress) : Progress :=
  {| reviewCount := Num 0;
     ease := Num (baseEase (config this));
     interval := Num 0;
     lastReview := Null;
     dueDate := Null;
     difficulty := None |}.

(** ** flashcards.js: the catalog and the statistics *)

(** [loadFlashcards]: [response] is what fetching and parsing the catalog
    file gives: [None] when either throws, [Some None] when the parsed
    object has no [flashcards], [Some (Some l)] otherwise.  The method
    returns the catalog it loaded, [[]] after a failure (which leaves
    [this.flashcards] alone). *)
Definition loadFlashcards (response : option (option (list Flashcard)))
    : FM (list Flashcard) :=
  fun s =>
    match response with
    | Some data =>
        let l := match data with Some l => l | None => [] end in
        (Ret l, ({| flashcards := l; progress := progress (fst s) |}, snd s))
    | None => (Ret [], s)
    end.

Definition init (response : option (option (list Flashcard))) : FM unit :=
  loadFlashcards response;;
  loadProgress.

Definition getUncompletedFlashcards : FM (list string) :=
  fm ← this;
  match progress fm with
  | None =>
      match flashcards fm with
      | [] => ret []
      | _ => throw null_progress
      end
  | Some p =>
      ret (List.filter (fun i => negb (includes (completed p) i))
                       (map id (flashcards fm)))
  end.

Definition areAllFlashcardsShown : FM bool :=
  unshown ← getUnshownFlashcards;
  ret (Nat.eqb (length unshown) 0).

Module ProgressStats.
Record t : Type := {
  total : nat;
  completed : nat;
  repeatLater : nat;
  unshown : nat;
  progress : Q
}.
End ProgressStats.

Definition getProgressStats : FM ProgressStats.t :=
  fm ← this;
  let total := length (flashcards fm) in
  match progress fm with
  | None => throw null_progress
  | Some p =>
      let completed := length (completed p) in
      match repeatLater p with
      | None => throw undefined_repeatLater
      | Some later =>
          let repeatLater := length later in
          unshownIds ← getUnshownFlashcards;
          let unshown := length unshownIds in
          ret {| ProgressStats.total := total;
                 ProgressStats.completed := completed;
                 ProgressStats.repeatLater := repeatLater;
                 ProgressStats.unshown := unshown;
                 ProgressStats.progress :=
                   if (0 <? total)%nat
                   then round_half_up
                          (inject_Z (Z.of_nat completed)
                           / inject_Z (Z.of_nat total) * 100)
                   else 0 |}
      end
  end.

Definition resetProgress : FM unit :=
  set_progress (Some empty_progress_state);;
  saveProgress.

(** ** storage.js: the list of excluded pages *)

(** The storage area as far as the key of the excluded pages goes. *)
Record PageStorage : Type := {
  storedPages : option (list string);
  pagesWritable : bool
}.

Definition getExcludedPages (st : PageStorage) : list string :=
  match storedPages st with
  | Some pages => pages
  | None => []
  end.

Definition saveExcludedPages (st : PageStorage) (pages : list string)
    : bool * PageStorage :=
  if pagesWritable st
  then (true, {| storedPages := Some pages; pagesWritable := pagesWritable st |})
  else (false, st).

Definition addExcludedPage (st : PageStorage) (url : string)
    : bool * PageStorage :=
  let excluded := getExcludedPages st in
  if negb (includes excluded url)
  then saveExcludedPages st (excluded ++ [url])
  else (true, st).

Definition removeExcludedPage (st : PageStorage) (url : string)
    : bool * PageStorage :=
  let excluded := getExcludedPages st in
  let filtered :=
    List.filter (fun page => negb (String.eqb page url)) excluded in
  saveExcludedPages st filtered.

(** * Vocabulary of the properties *)

(** ** Numbers *)

(** [Math.round(x * 100) / 100] on a number. *)
Definition round2 (x : Q) : Q := round_half_up (x * 100) / 100.

(** A number with at most two decimals. *)
Definition two_decimals (x : Q) : Prop := exists k : Z, x == inject_Z k / 100.

Definition num_ge (v : jsval) (q : Q) : Prop :=
  match v with
  | Num x => q <= x
  | _ => False
  end.

(** ** The review algorithm *)

(** The configuration a call of [calculateReview] works with. *)
Definition activeConfig (this : SpacedRepetitionAlgorithm) : Config :=
  if configLoaded this then config this else DEFAULT_ALGORITHM_CONFIG.

(** The three values the destructuring of [flashcardData] binds. *)
Definition boundReviewCount (p : Progress) : jsval :=
  default_to (Num 0) (reviewCount p).
Definition boundEase (cfg : Config) (p : Progress) : jsval :=
  default_to (Num (baseEase cfg)) (ease p).
Definition boundInterval (p : Progress) : jsval :=
  default_to (Num 0) (interval p).

Definition first_review (p : Progress) : Prop :=
  is_zero (boundReviewCount p) = true.

(** The algorithm with its configuration loaded. *)
Definition configured (cfg : Config) : SpacedRepetitionAlgorithm :=
  {| config := cfg; configLoaded := true |}.

Definition config_without_balancer : Config :=
  {| baseEase := 250; intervalChangeHard := 50; easyBonus := 130;
     enableLoadBalancer := false; maxIntervalDays := 36525;
     maxLinkContribution := 50 |}.

(** An easy bonus under 100 %. *)
Definition config_small_bonus : Config :=
  {| baseEase := 250; intervalChangeHard := 50; easyBonus := 50;
     enableLoadBalancer := false; maxIntervalDays := 36525;
     maxLinkContribution := 50 |}.

(** A cap of ten days and three hours, the rest as shipped. *)
Definition config_cap_eighth : Config :=
  {| baseEase := 250; intervalChangeHard := 50; easyBonus := 130;
     enableLoadBalancer := true; maxIntervalDays := 81 # 8;
     maxLinkContribution := 50 |}.

(** The value the initial ease has before it is rounded. *)
Definition linked_ease_value (cfg : Config) (linkedEase : Q) : Q :=
  baseEase cfg
  + (linkedEase - baseEase cfg) * (maxLinkContribution cfg / 100).


(** A configuration under which a linked ease of 780 gives 500.5. *)
Definition config_link_57 : Config :=
  {| baseEase := 130; intervalChangeHard := 50; easyBonus := 130;
     enableLoadBalancer := true; maxIntervalDays := 36500;
     maxLinkContribution := 57 |}.

(** A card reviewed once, with the interval [i]. *)
Definition reviewed_once (i : Q) : Progress :=
  {| reviewCount := Num 1; ease := Num 250; interval := Num i;
     lastReview := Null; dueDate := Null; difficulty := None |}.

(** ** The scheduler *)

(** A scheduler whose dependencies are set and whose manager has the
    catalog [l] and the loaded progress state [ps]. *)
Definition loaded (l : list Flashcard) (ps : ProgressState)
    (alg : SpacedRepetitionAlgorithm) : Scheduler :=
  {| flashcardManager := Some {| flashcards := l; progress := Some ps |};
     algorithm := Some alg |}.

(** What [getFlashcardProgress] answers on a loaded state. *)
Definition progress_of (ps : ProgressState) (i : string) : Progress :=
  match flashcardData ps !! i with
  | Some d => d
  | None => default_progress
  end.

Definition with_progress (ps : ProgressState) (fc : Flashcard)
    : Flashcard * Progress :=
  (fc, progress_of ps (id fc)).

(** The array [getDueFlashcard] sorts. *)
Definition due_candidates (l : list Flashcard) (ps : ProgressState) (now : Z)
    : list (Flashcard * Progress) :=
  List.filter
    (fun x => negb (truthy (dueDate (snd x))) || isDue now (snd x))
    (map (with_progress ps) l).

(** [reviewCount || 0] as a number. *)
Definition count_number (x : Flashcard * Progress) : Q :=
  match ToNumber (or_zero (reviewCount (snd x))) with
  | Some q => q
  | None => 0
  end.

Definition never_reviewed (x : Flashcard * Progress) : Prop :=
  truthy (dueDate (snd x)) = false /\ count_number x == 0.

Definition reviewed (x : Flashcard * Progress) : Prop :=
  0 < count_number x.

Definition classified (x : Flashcard * Progress) : Prop :=
  never_reviewed x \/ reviewed x.

(** The progress state [recordReview] leaves: the record of [i] replaced
    by [updated]; with [done], [i] marked completed and taken off the
    later queue [q]. *)
Definition reviewed_state (ps : ProgressState) (q : list string) (i : string)
    (updated : Progress) (done : bool) : ProgressState :=
  {| completed :=
       if done && negb (includes (completed ps) i)
       then completed ps ++ [i] else completed ps;
     repeatLater :=
       Some (if done
             then List.filter (fun fcId => negb (String.eqb fcId i)) q
             else q);
     flashcardData := <[i := updated]> (flashcardData ps) |}.

(** The progress state [markForLater] works on: the loaded one, or the
    one it loads from the storage. *)
Definition progress_before (fm : FlashcardManager) (st : StorageManager)
    : ProgressState :=
  match progress fm with
  | Some ps => ps
  | None => storage_getProgress st
  end.

Definition later_before (fm : FlashcardManager) (st : StorageManager)
    : list string :=
  match repeatLater (progress_before fm st) with
  | Some q => q
  | None => []
  end.

(** [if (!q.includes(i)) q.push(i)] *)
Definition push_absent (q : list string) (i : string) : list string :=
  if includes q i then q else q ++ [i].

Definition marked_state (fm : FlashcardManager) (st : StorageManager)
    (i : string) : ProgressState :=
  {| completed := completed (progress_before fm st);
     repeatLater := Some (push_absent (later_before fm st) i);
     flashcardData := flashcardData (progress_before fm st) |}.

(** The later queue of a scheduler state. *)
Definition later_queue (s : Scheduler * StorageManager)
    : option (list string) :=
  fm ← flashcardManager (fst s); ps ← progress fm; repeatLater ps.



(** ** A catalog of three cards, as in the integration tests *)

Definition fc1 : Flashcard :=
  {| id := "fc-1"; question := "Q1"; answer := "A1" |}.
Definition fc2 : Flashcard :=
  {| id := "fc-2"; question := "Q2"; answer := "A2" |}.
Definition fc3 : Flashcard :=
  {| id := "fc-3"; question := "Q3"; answer := "A3" |}.

(** A card reviewed once and due at [t]. *)
Definition due_at (t : Q) : Progress :=
  {| reviewCount := Num 1; ease := Num 250; interval := Num 1;
     lastReview := Num 500; dueDate := Num t; difficulty := Some "good" |}.

(** fc-1 due at 1000, fc-2 due at 3000, no record of fc-3. *)
Definition two_reviewed : ProgressState :=
  {| completed := ["fc-1"; "fc-2"];
     repeatLater := Some [];
     flashcardData :=
       <["fc-1" := due_at 1000]> (<["fc-2" := due_at 3000]> ∅) |}.

Definition one_later : ProgressState :=
  {| completed := []; repeatLater := Some ["fc-1"]; flashcardData := ∅ |}.

Definition empty_storage : StorageManager :=
  {| stored := None; writable := true |}.

(** [new FlashcardManager()] *)
Definition new_manager : FlashcardManager :=
  {| flashcards := []; progress := None |}.


(** ** Outcomes and configurations *)

(** The outcomes of the vocabulary. *)
Definition known_outcome (d : string) : Prop :=
  d = REVIEW_DIFFICULTY.HARD \/ d = REVIEW_DIFFICULTY.GOOD
  \/ d = REVIEW_DIFFICULTY.EASY.

Definition longer_cap : PartialConfig :=
  {| opt_baseEase := None; opt_intervalChangeHard := None;
     opt_easyBonus := None; opt_enableLoadBalancer := Some false;
     opt_maxIntervalDays := Some 365; opt_maxLinkContribution := None |}.

Definition empty_config_storage : ConfigStorage :=
  {| storedConfig := None; configWritable := true |}.

(** ** Statistics and tiers *)

(** The three tests of the loop of [getSchedulingStats]. *)
Definition counts_new (ps : ProgressState) (fc : Flashcard) : bool :=
  is_zero (reviewCount (progress_of ps (id fc))).

Definition counts_due (now : Z) (ps : ProgressState) (fc : Flashcard) : bool :=
  negb (counts_new ps fc) && isDue now (progress_of ps (id fc)).

Definition counts_later (q : list string) (fc : Flashcard) : bool :=
  includes q (id fc).

Definition count {A : Type} (f : A -> bool) (l : list A) : nat :=
  length (List.filter f l).

(** The due date of a candidate as a number. *)
Definition due_number (x : Flashcard * Progress) : Q :=
  match ToNumber (dueDate (snd x)) with
  | Some q => q
  | None => 0
  end.

(** A candidate with a due date. *)
Definition dated (x : Flashcard * Progress) : Prop :=
  exists d, dueDate (snd x) = Num d /\ ~ d == 0.

(** The ids [getUnshownFlashcards] returns. *)
Definition unshown_ids (l : list Flashcard) (ps : ProgressState)
    : list string :=
  List.filter (fun i => negb (includes (completed ps) i)) (map id l).

(** The cards of the three tiers on a loaded state. *)
Definition due_pick (l : list Flashcard) (ps : ProgressState) (now : Z)
    : option (Flashcard * Progress) :=
  head (js_sort compareDue (due_candidates l ps now)).

Definition card_with_id (l : list Flashcard) (ps : ProgressState)
    (i : string) : option (Flashcard * Progress) :=
  match List.find (fun fc => String.eqb (id fc) i) l with
  | Some fc => Some (fc, progress_of ps i)
  | None => None
  end.

Definition unshown_pick (l : list Flashcard) (ps : ProgressState) (rnd : Q)
    : option (Flashcard * Progress) :=
  match unshown_ids l ps !! random_index rnd (length (unshown_ids l ps)) with
  | Some i => card_with_id l ps i
  | None => None
  end.

Definition later_pick (l : list Flashcard) (ps : ProgressState)
    (q : list string) : option (Flashcard * Progress) :=
  match q with
  | [] => None
  | i :: _ => card_with_id l ps i
  end.

Definition first_of {A : Type} (a b : option A) : option A :=
  match a with
  | Some x => Some x
  | None => b
  end.

(** ** More progress states of the catalog of three cards *)

Definition three_due : ProgressState :=
  {| completed := ["fc-1"; "fc-2"; "fc-3"];
     repeatLater := Some [];
     flashcardData :=
       <["fc-1" := due_at 1500]>
         (<["fc-2" := due_at 1000]> (<["fc-3" := due_at 1200]> ∅)) |}.


(** All three cards completed and due at 3000; the queue starts with an
    id the catalog does not have. *)
Definition stale_queue : ProgressState :=
  {| completed := ["fc-1"; "fc-2"; "fc-3"];
     repeatLater := Some ["fc-9"; "fc-2"];
     flashcardData :=
       <["fc-1" := due_at 3000]>
         (<["fc-2" := due_at 3000]> (<["fc-3" := due_at 3000]> ∅)) |}.

(** ** The manager *)

(** A manager with the catalog [l] and the loaded progress state [ps]. *)
Definition managing (l : list Flashcard) (ps : ProgressState)
    : FlashcardManager :=
  {| flashcards := l; progress := Some ps |}.

(** The percentage [getProgressStats] reports. *)
Definition percentage (completed total : nat) : Q :=
  if (0 <? total)%nat
  then round_half_up
         (inject_Z (Z.of_nat completed) / inject_Z (Z.of_nat total) * 100)
  else 0.

(** The catalog [loadFlashcards] leaves for a response. *)
Definition catalog_after (response : option (option (list Flashcard)))
    (old : list Flashcard) : list Flashcard :=
  match response with
  | Some (Some l) => l
  | Some None => []
  | None => old
  end.

(** * Properties of the review algorithm *)

(** ** Rounding and capping on rationals *)

Lemma Qle_bool_false (x y : Q) : Qle_bool x y = false <-> y < x.
Proof.
  split; intros H.
  - apply Qnot_le_lt. intros Hle. apply Qle_bool_iff in Hle. congruence.
  - destruct (Qle_bool x y) eqn:E; [|reflexivity].
    apply Qle_bool_iff in E. lra.
Qed.

Lemma Qeq_bool_false (x y : Q) : Qeq_bool x y = false <-> ~ x == y.
Proof.
  split.
  - intros H Heq. apply Qeq_bool_iff in Heq. congruence.
  - intros H. destruct (Qeq_bool x y) eqn:E; [|reflexivity].
    apply Qeq_bool_iff in E. contradiction.
Qed.

Lemma round_half_up_mono (x y : Q) :
  x <= y -> round_half_up x <= round_half_up y.
Proof.
  intros H. unfold round_half_up. rewrite <- Zle_Qle.
  apply Qfloor_resp_le. lra.
Qed.

Lemma round_half_up_Z (z : Z) : round_half_up (inject_Z z) = inject_Z z.
Proof.
  unfold round_half_up. f_equal.
  pose proof (Qfloor_le (inject_Z z + (1 # 2))) as Hle.
  pose proof (Qlt_floor (inject_Z z + (1 # 2))) as Hlt.
  set (f := Qfloor (inject_Z z + (1 # 2))) in *.
  rewrite inject_Z_plus in Hlt.
  assert (inject_Z f < inject_Z (z + 1)) as H1.
  { rewrite inject_Z_plus. eapply Qle_lt_trans; [exact Hle|].
    change (inject_Z 1) with 1. lra. }
  assert (inject_Z z < inject_Z (f + 1)) as H2.
  { rewrite inject_Z_plus. change (inject_Z 1) with 1 in *. lra. }
  rewrite <- Zlt_Qlt in H1, H2. lia.
Qed.

Lemma round_half_up_int (x : Q) (z : Z) :
  x == inject_Z z -> round_half_up x == inject_Z z.
Proof.
  intros H. rewrite <- (round_half_up_Z z) at 1.
  unfold round_half_up.
  assert (Qfloor (x + (1 # 2)) = Qfloor (inject_Z z + (1 # 2))) as ->;
    [|reflexivity].
  apply Z.le_antisymm; apply Qfloor_resp_le; lra.
Qed.

Lemma round_half_up_fix (x : Q) (z : Z) :
  x == inject_Z z -> round_half_up x == x.
Proof.
  intros H. eapply Qeq_trans; [apply (round_half_up_int x z H)|].
  symmetry. exact H.
Qed.

#[global] Instance round_half_up_comp : Proper (Qeq ==> eq) round_half_up.
Proof. intros x y H. unfold round_half_up. now rewrite H. Qed.

#[global] Instance round2_comp : Proper (Qeq ==> Qeq) round2.
Proof. intros x y H. unfold round2. now rewrite H. Qed.

(** Division by the literal 100, put in the form [lra] reads. *)
Ltac div100 :=
  unfold Qdiv in *; change (/ 100) with (1 # 100) in *.

Lemma round2_mono (x y : Q) : x <= y -> round2 x <= round2 y.
Proof.
  intros H. unfold round2.
  assert (round_half_up (x * 100) <= round_half_up (y * 100))
    by (apply round_half_up_mono; lra).
  div100. lra.
Qed.

Lemma round2_two_decimals (x : Q) : two_decimals x -> round2 x == x.
Proof.
  intros [k Hk]. unfold round2.
  rewrite (round_half_up_int (x * 100) k); div100; lra.
Qed.

Lemma two_decimals_round2 (x : Q) : two_decimals (round2 x).
Proof. eexists. unfold round2. reflexivity. Qed.

Lemma two_decimals_Z (z : Z) : two_decimals (inject_Z z).
Proof.
  exists (z * 100)%Z. rewrite inject_Z_mult.
  change (inject_Z 100) with 100. div100. lra.
Qed.

Lemma round2_le_cap (x m : Q) : two_decimals m -> round2 (Qmin x m) <= m.
Proof.
  intros Hm. rewrite <- (round2_two_decimals m Hm) at 2.
  apply round2_mono, Q.le_min_r.
Qed.

Lemma Math_min_num w m x :
  ToNumber w = Some x -> Math_min w (Num m) = Num (Qmin x m).
Proof. unfold Math_min, arith. now intros ->. Qed.

Lemma arith_defined f a b : arith f a b <> Undefined.
Proof. unfold arith. now destruct (ToNumber a), (ToNumber b). Qed.

Lemma Math_round_defined a : Math_round a <> Undefined.
Proof. unfold Math_round. now destruct (ToNumber a). Qed.

(** ** The shape of a result *)

Lemma calculateReview_review this now rnd p d :
  fst (calculateReview this now rnd p d)
  = review (activeConfig this) now rnd p d.
Proof. unfold calculateReview, activeConfig. destruct this as [c []]; auto. Qed.

(** What the call leaves in [this]. *)
Lemma calculateReview_this this now rnd p d :
  config (snd (calculateReview this now rnd p d)) = activeConfig this
  /\ configLoaded (snd (calculateReview this now rnd p d))
     = configLoaded this.
Proof. unfold calculateReview, activeConfig. destruct this as [c []]; auto. Qed.

(** The interval of the result when the branch yields the number [x] and
    the load balancer stays out. *)
Lemma review_interval_plain cfg now rnd p d x e :
  nextIntervalAndEase cfg (boundReviewCount p) (boundEase cfg p)
    (boundInterval p) d = (Num x, e) ->
  enableLoadBalancer cfg && Qle_bool 1 x = false ->
  interval (review cfg now rnd p d)
  = Num (round2 (Qmin x (maxIntervalDays cfg))).
Proof.
  intros Hbranch Hlb. unfold review.
  fold (boundReviewCount p) (boundEase cfg p) (boundInterval p).
  rewrite Hbranch. cbn [js_ge ToNumber]. rewrite Hlb. reflexivity.
Qed.

Lemma review_ease cfg now rnd p d :
  ease (review cfg now rnd p d) =
  Math_round (snd (nextIntervalAndEase cfg (boundReviewCount p)
                     (boundEase cfg p) (boundInterval p) d)).
Proof.
  unfold review.
  fold (boundReviewCount p) (boundEase cfg p) (boundInterval p).
  now destruct (nextIntervalAndEase _ _ _ _ _).
Qed.

Lemma review_reviewCount cfg now rnd p d :
  reviewCount (review cfg now rnd p d) = (boundReviewCount p + Num 1)%js.
Proof.
  unfold review.
  fold (boundReviewCount p) (boundEase cfg p) (boundInterval p).
  now destruct (nextIntervalAndEase _ _ _ _ _).
Qed.

(** Every ease the algorithm hands out is an integer (or NaN). *)
Lemma review_ease_integer cfg now rnd p d :
  ease (review cfg now rnd p d) = NaN
  \/ exists z : Z, ease (review cfg now rnd p d) = Num (inject_Z z).
Proof.
  rewrite review_ease. unfold Math_round.
  destruct (ToNumber _); [right|now left].
  eexists. reflexivity.
Qed.

Lemma rounded_two_places w :
  (Math_round (w * Num 100) / Num 100)%js
  = match ToNumber w with
    | Some x => Num (round2 x)
    | None => NaN
    end.
Proof.
  unfold js_div, js_mul, Math_round, arith.
  destruct (ToNumber w); reflexivity.
Qed.

(** Every interval it hands out has two decimals (or is NaN). *)
Lemma review_interval_two_decimals cfg now rnd p d :
  interval (review cfg now rnd p d) = NaN
  \/ exists x, interval (review cfg now rnd p d) = Num x /\ two_decimals x.
Proof.
  unfold review. destruct (nextIntervalAndEase _ _ _ _ _) as [v e].
  cbn [interval]. rewrite rounded_two_places.
  destruct (ToNumber _); [right|now left].
  eexists. split; [reflexivity|]. apply two_decimals_round2.
Qed.

(** Every field of a result is set, so spreading it over an older record
    leaves the result itself. *)
Lemma pick_defined (x y : jsval) :
  y <> Undefined -> match y with Undefined => x | _ => y end = y.
Proof. now destruct y. Qed.

Lemma spread_review old cfg now rnd p d :
  spread old (review cfg now rnd p d) = review cfg now rnd p d.
Proof.
  unfold review. destruct (nextIntervalAndEase _ _ _ _ _) as [v e].
  unfold spread.
  cbn [reviewCount ease interval lastReview dueDate difficulty].
  f_equal; try apply pick_defined;
    try apply arith_defined; try apply Math_round_defined; discriminate.
Qed.

Lemma spread_calculateReview old alg now rnd p d :
  spread old (fst (calculateReview alg now rnd p d))
  = fst (calculateReview alg now rnd p d).
Proof. rewrite calculateReview_review. apply spread_review. Qed.

(** ** First review *)

(** C3, as amended.  At a first review ([reviewCount] 0 or missing) the
    interval of the result is the fixed lookup by outcome whenever the
    load balancer and the cap leave it alone: 0.5 days for Hard as soon
    as [maxIntervalDays] is at least 0.5 (the balancer never touches an
    interval under one day); 1 day for Good and 4 days for Easy when the
    load balancer is disabled and [maxIntervalDays] is at least 1,
    respectively 4.  The ease-based formula plays no part. *)
Theorem first_review_interval this now rnd p :
  first_review p ->
  (1 # 2 <= maxIntervalDays (activeConfig this) ->
   num_eq (interval (fst (calculateReview this now rnd p
                            REVIEW_DIFFICULTY.HARD))) (1 # 2))
  /\ (enableLoadBalancer (activeConfig this) = false ->
      1 <= maxIntervalDays (activeConfig this) ->
      num_eq (interval (fst (calculateReview this now rnd p
                               REVIEW_DIFFICULTY.GOOD))) 1)
  /\ (enableLoadBalancer (activeConfig this) = false ->
      4 <= maxIntervalDays (activeConfig this) ->
      num_eq (interval (fst (calculateReview this now rnd p
                               REVIEW_DIFFICULTY.EASY))) 4).
Proof.
  intros Hfirst. rewrite !calculateReview_review.
  set (cfg := activeConfig this). repeat split.
  - intros Hmax.
    erewrite review_interval_plain with (x := 1 # 2).
    + cbn. rewrite Q.min_l by assumption. reflexivity.
    + unfold nextIntervalAndEase. rewrite Hfirst. reflexivity.
    + apply andb_false_r.
  - intros Hlb Hmax.
    erewrite review_interval_plain with (x := 1).
    + cbn. rewrite Q.min_l by assumption. reflexivity.
    + unfold nextIntervalAndEase. rewrite Hfirst. reflexivity.
    + now rewrite Hlb.
  - intros Hlb Hmax.
    erewrite review_interval_plain with (x := 4).
    + cbn. rewrite Q.min_l by assumption. reflexivity.
    + unfold nextIntervalAndEase. rewrite Hfirst. reflexivity.
    + now rewrite Hlb.
Qed.

Lemma first_review_interval_witness :
  num_eq (interval (fst (calculateReview (configured config_without_balancer)
                           0 0 default_progress REVIEW_DIFFICULTY.EASY))) 4.
Proof.
  refine (proj2 (proj2 (first_review_interval
                          (configured config_without_balancer) 0 0
                          default_progress _)) _ _).
  - reflexivity.
  - reflexivity.
  - vm_compute. discriminate.
Defined.

(** With the configuration as shipped (load balancer enabled) and
    [Math.random()] returning 0.9, the first Good review of a card the
    store has no record of is scheduled 1.04 days ahead, not 1. *)
Lemma first_review_interval_counterexample :
  first_review default_progress
  /\ num_eq (interval (fst (calculateReview new_algorithm 0 (9 # 10)
                              default_progress REVIEW_DIFFICULTY.GOOD)))
            (104 # 100)
  /\ ~ num_eq (interval (fst (calculateReview new_algorithm 0 (9 # 10)
                                default_progress REVIEW_DIFFICULTY.GOOD))) 1.
Proof.
  split; [reflexivity|]. split; [reflexivity|].
  vm_compute. discriminate.
Qed.

(** The cap reaches the lookup as well: under a two-day cap the first
    Easy review gives 2 days. *)
Lemma first_review_capped :
  num_eq (interval (review
            {| baseEase := 250; intervalChangeHard := 50; easyBonus := 130;
               enableLoadBalancer := false; maxIntervalDays := 2;
               maxLinkContribution := 50 |}
            0 0 default_progress REVIEW_DIFFICULTY.EASY)) 2.
Proof. reflexivity. Qed.

(** ** Subsequent reviews *)

Section Subsequent.
Variables (cfg : Config) (now : Z) (rnd : Q) (p : Progress) (n i : Q).
Hypothesis Hcount : reviewCount p = Num n.
Hypothesis Hpos : 0 < n.

Lemma subsequent_not_first : is_zero (boundReviewCount p) = false.
Proof.
  unfold boundReviewCount. rewrite Hcount. cbn.
  apply Qeq_bool_false. lra.
Qed.

Lemma branch_other d :
  d <> REVIEW_DIFFICULTY.HARD -> d <> REVIEW_DIFFICULTY.GOOD ->
  d <> REVIEW_DIFFICULTY.EASY ->
  nextIntervalAndEase cfg (boundReviewCount p) (boundEase cfg p)
    (boundInterval p) d
  = (boundInterval p, boundEase cfg p).
Proof.
  intros Hh Hg He. unfold nextIntervalAndEase.
  rewrite subsequent_not_first.
  apply String.eqb_neq in Hh, Hg, He. now rewrite Hh, Hg, He.
Qed.

Hypothesis Hinterval : interval p = Num i.

Lemma boundInterval_num : boundInterval p = Num i.
Proof. unfold boundInterval. now rewrite Hinterval. Qed.

Lemma branch_hard :
  nextIntervalAndEase cfg (boundReviewCount p) (boundEase cfg p)
    (boundInterval p) REVIEW_DIFFICULTY.HARD
  = (Num (i * (intervalChangeHard cfg / 100)),
     Math_max (Num 130) (boundEase cfg p - Num 20)%js).
Proof.
  unfold nextIntervalAndEase.
  rewrite subsequent_not_first, boundInterval_num. reflexivity.
Qed.

Lemma branch_good e :
  boundEase cfg p = Num e ->
  nextIntervalAndEase cfg (boundReviewCount p) (boundEase cfg p)
    (boundInterval p) REVIEW_DIFFICULTY.GOOD
  = (Num (i * (e / 100)), Num e).
Proof.
  intros He. unfold nextIntervalAndEase.
  rewrite subsequent_not_first, boundInterval_num, He. reflexivity.
Qed.

Lemma branch_easy e :
  boundEase cfg p = Num e ->
  nextIntervalAndEase cfg (boundReviewCount p) (boundEase cfg p)
    (boundInterval p) REVIEW_DIFFICULTY.EASY
  = (Num (i * (e / 100) * (easyBonus cfg / 100)), Num (e + 15)).
Proof.
  intros He. unfold nextIntervalAndEase.
  rewrite subsequent_not_first, boundInterval_num, He. reflexivity.
Qed.

Lemma capped_mono x y :
  x <= y ->
  round2 (Qmin x (maxIntervalDays cfg))
  <= round2 (Qmin y (maxIntervalDays cfg)).
Proof. intros H. apply round2_mono, Q.min_le_compat_r, H. Qed.

Lemma hard_le_input :
  0 <= i -> two_decimals i -> intervalChangeHard cfg <= 100 ->
  enableLoadBalancer cfg = false ->
  num_le (interval (review cfg now rnd p REVIEW_DIFFICULTY.HARD)) i.
Proof.
  intros Hi Hgrid Hhard Hlb.
  erewrite review_interval_plain;
    [| apply branch_hard | now rewrite Hlb].
  cbn. rewrite <- (round2_two_decimals i Hgrid) at 2.
  apply round2_mono. eapply Qle_trans; [apply Q.le_min_l|].
  div100. nra.
Qed.

Lemma hard_good_easy e :
  0 <= i -> boundEase cfg p = Num e ->
  0 <= e -> intervalChangeHard cfg <= e -> 100 <= easyBonus cfg ->
  enableLoadBalancer cfg = false ->
  val_le (interval (review cfg now rnd p REVIEW_DIFFICULTY.HARD))
         (interval (review cfg now rnd p REVIEW_DIFFICULTY.GOOD))
  /\ val_le (interval (review cfg now rnd p REVIEW_DIFFICULTY.GOOD))
            (interval (review cfg now rnd p REVIEW_DIFFICULTY.EASY)).
Proof.
  intros Hi He He0 Hhard Hbonus Hlb.
  erewrite (review_interval_plain _ _ _ _ REVIEW_DIFFICULTY.HARD);
    [| apply branch_hard | now rewrite Hlb].
  erewrite (review_interval_plain _ _ _ _ REVIEW_DIFFICULTY.GOOD);
    [| apply branch_good, He | now rewrite Hlb].
  erewrite (review_interval_plain _ _ _ _ REVIEW_DIFFICULTY.EASY);
    [| apply branch_easy, He | now rewrite Hlb].
  cbn. split; apply capped_mono; div100.
  - nra.
  - assert (0 <= i * e) by nra. nra.
Qed.
End Subsequent.

(** C4, as amended.  For a record with [reviewCount] > 0 and a
    non-negative interval [i], under a configuration with the load
    balancer disabled: the interval after Hard is at most [i] when
    [intervalChangeHard] is at most 100 and [i] has at most two decimals
    (as every interval the algorithm stores has); and the intervals after
    Hard, Good and Easy are in ascending order when the ease is
    non-negative and at least [intervalChangeHard], and [easyBonus] is at
    least 100. *)
Theorem subsequent_interval_order this now rnd p n i :
  reviewCount p = Num n -> 0 < n ->
  interval p = Num i -> 0 <= i ->
  enableLoadBalancer (activeConfig this) = false ->
  (two_decimals i -> intervalChangeHard (activeConfig this) <= 100 ->
   num_le (interval (fst (calculateReview this now rnd p
                            REVIEW_DIFFICULTY.HARD))) i)
  /\ (forall e,
        boundEase (activeConfig this) p = Num e -> 0 <= e ->
        intervalChangeHard (activeConfig this) <= e ->
        100 <= easyBonus (activeConfig this) ->
        val_le (interval (fst (calculateReview this now rnd p
                                 REVIEW_DIFFICULTY.HARD)))
               (interval (fst (calculateReview this now rnd p
                                 REVIEW_DIFFICULTY.GOOD)))
        /\ val_le (interval (fst (calculateReview this now rnd p
                                    REVIEW_DIFFICULTY.GOOD)))
                  (interval (fst (calculateReview this now rnd p
                                    REVIEW_DIFFICULTY.EASY)))).
Proof.
  intros Hn Hpos Hi Hi0 Hlb.
  rewrite !calculateReview_review. split.
  - intros Hgrid Hhard. eapply hard_le_input; eassumption.
  - intros e He He0 Hhard Hbonus. eapply hard_good_easy; eassumption.
Qed.

Lemma subsequent_interval_order_witness :
  num_le (interval (fst (calculateReview (configured config_without_balancer)
                           0 0 (reviewed_once 1) REVIEW_DIFFICULTY.HARD))) 1
  /\ val_le (interval (fst (calculateReview
                              (configured config_without_balancer)
                              0 0 (reviewed_once 1) REVIEW_DIFFICULTY.HARD)))
            (interval (fst (calculateReview
                              (configured config_without_balancer)
                              0 0 (reviewed_once 1) REVIEW_DIFFICULTY.GOOD)))
  /\ val_le (interval (fst (calculateReview
                              (configured config_without_balancer)
                              0 0 (reviewed_once 1) REVIEW_DIFFICULTY.GOOD)))
            (interval (fst (calculateReview
                              (configured config_without_balancer)
                              0 0 (reviewed_once 1) REVIEW_DIFFICULTY.EASY))).
Proof.
  destruct (subsequent_interval_order (configured config_without_balancer)
              0 0 (reviewed_once 1) 1 1) as [Ha Hb].
  - reflexivity.
  - reflexivity.
  - reflexivity.
  - vm_compute. discriminate.
  - reflexivity.
  - split.
    + apply Ha.
      * exists 100%Z. reflexivity.
      * vm_compute. discriminate.
    + apply (Hb 250).
      * reflexivity.
      * vm_compute. discriminate.
      * vm_compute. discriminate.
      * vm_compute. discriminate.
Defined.

(** With [easyBonus] at 50, [intervalChangeHard] at 50 and the load
    balancer disabled, a card with interval 10 and ease 250 gets 25 days
    after Good and 12.5 after Easy. *)
Lemma subsequent_interval_order_counterexample :
  intervalChangeHard config_small_bonus <= 100
  /\ enableLoadBalancer config_small_bonus = false
  /\ num_eq (interval (fst (calculateReview (configured config_small_bonus)
                              0 0 (reviewed_once 10)
                              REVIEW_DIFFICULTY.GOOD))) 25
  /\ num_eq (interval (fst (calculateReview (configured config_small_bonus)
                              0 0 (reviewed_once 10)
                              REVIEW_DIFFICULTY.EASY))) (25 # 2)
  /\ ~ val_le (interval (fst (calculateReview (configured config_small_bonus)
                                0 0 (reviewed_once 10)
                                REVIEW_DIFFICULTY.GOOD)))
              (interval (fst (calculateReview (configured config_small_bonus)
                                0 0 (reviewed_once 10)
                                REVIEW_DIFFICULTY.EASY))).
Proof.
  split; [vm_compute; discriminate|]. split; [reflexivity|].
  split; [reflexivity|]. split; [reflexivity|].
  vm_compute. intros H. apply H. reflexivity.
Qed.

(** The other conditions are needed as well.  An input interval with
    more than two decimals can be rounded upwards ... *)
Lemma hard_above_unrounded_input :
  num_eq (interval (review
            {| baseEase := 250; intervalChangeHard := 100; easyBonus := 130;
               enableLoadBalancer := false; maxIntervalDays := 36525;
               maxLinkContribution := 50 |}
            0 0 (reviewed_once (1 # 128)) REVIEW_DIFFICULTY.HARD)) (1 # 100)
  /\ 1 # 128 < 1 # 100.
Proof. split; reflexivity. Qed.

(** ... and the ease the code stores at the first review of a card it
    has no record of is 0 ([getFlashcardProgress] supplies [ease: null],
    which the default [ease = this.config.baseEase] does not replace and
    [Math.round] turns into 0): at the next review Good and Easy give
    interval 0 where Hard gives 0.5. *)
Lemma ease_after_first_review d :
  ease (review DEFAULT_ALGORITHM_CONFIG 0 0 default_progress d) = Num 0.
Proof.
  rewrite review_ease. unfold nextIntervalAndEase.
  change (is_zero (boundReviewCount default_progress)) with true.
  reflexivity.
Qed.

Lemma good_below_hard_after_first_review :
  num_eq (interval (review config_without_balancer 0 0 default_progress
                      REVIEW_DIFFICULTY.GOOD)) 1
  /\ num_eq (interval (review config_without_balancer 0 0
                         (review config_without_balancer 0 0 default_progress
                            REVIEW_DIFFICULTY.GOOD)
                         REVIEW_DIFFICULTY.HARD)) (1 # 2)
  /\ num_eq (interval (review config_without_balancer 0 0
                         (review config_without_balancer 0 0 default_progress
                            REVIEW_DIFFICULTY.GOOD)
                         REVIEW_DIFFICULTY.GOOD)) 0
  /\ num_eq (interval (review config_without_balancer 0 0
                         (review config_without_balancer 0 0 default_progress
                            REVIEW_DIFFICULTY.GOOD)
                         REVIEW_DIFFICULTY.EASY)) 0.
Proof. repeat split; reflexivity. Qed.

(** ** The cap *)

(** A cap with at most two decimals (any whole number of days) holds
    through the final rounding. *)
Lemma interval_within_cap cfg now rnd p d :
  two_decimals (maxIntervalDays cfg) ->
  match interval (review cfg now rnd p d) with
  | Num y => y <= maxIntervalDays cfg
  | _ => True
  end.
Proof.
  intros Hgrid. unfold review.
  destruct (nextIntervalAndEase _ _ _ _ _) as [v e].
  cbn [interval]. rewrite rounded_two_places.
  match goal with
  | |- context [Math_min ?w ?m] => destruct (ToNumber w) as [x|] eqn:Hw
  end.
  - rewrite (Math_min_num _ _ x Hw). cbn. now apply round2_le_cap.
  - unfold Math_min, arith. rewrite Hw. exact I.
Qed.

(** C5, at the failing input.  Under a cap of 10.125 days, the rest of
    the configuration as shipped, a card with interval 100 and ease 250
    reviewed Good comes back with interval 10.13: the cap is applied
    before the rounding to two decimals, which then steps over it. *)
Theorem interval_above_cap :
  num_eq (interval (fst (calculateReview (configured config_cap_eighth)
                           0 (1 # 2) (reviewed_once 100)
                           REVIEW_DIFFICULTY.GOOD))) (1013 # 100)
  /\ ~ num_le (interval (fst (calculateReview (configured config_cap_eighth)
                                0 (1 # 2) (reviewed_once 100)
                                REVIEW_DIFFICULTY.GOOD)))
              (maxIntervalDays config_cap_eighth).
Proof.
  split; [reflexivity|]. vm_compute. intros H. apply H. reflexivity.
Qed.

(** The same for whatever [Math.random()] returns. *)
Lemma cap_exceeded_any_random rnd :
  0 <= rnd -> rnd < 1 ->
  num_eq (interval (review config_cap_eighth 0 rnd (reviewed_once 100)
                      REVIEW_DIFFICULTY.GOOD)) (1013 # 100).
Proof.
  intros H0 H1. unfold review.
  change (nextIntervalAndEase config_cap_eighth _ _ _ _)
    with (Num (100 * (250 / 100)), Num 250).
  cbn [interval]. rewrite rounded_two_places.
  change (enableLoadBalancer config_cap_eighth
          && js_ge (Num (100 * (250 / 100))) (Num 1)) with true.
  cbv iota.
  change (num_eq
            (Num (round2
                    (Qmin (100 * (250 / 100) * (1 + (rnd * 2 - 1) * (5 # 100)))
                          (81 # 8))))
            (1013 # 100)).
  cbn [num_eq]. rewrite Q.min_r by (div100; lra). reflexivity.
Qed.

(** ** Ease *)

Lemma round_half_up_max_floor e z :
  e == inject_Z z ->
  round_half_up (Qmax 130 (e - 20)) == Qmax 130 (e - 20).
Proof.
  intros He.
  destruct (Q.max_spec 130 (e - 20)) as [[_ Hmax]|[_ Hmax]].
  - apply (round_half_up_fix _ (z - 20)).
    eapply Qeq_trans; [exact Hmax|].
    unfold Z.sub. rewrite inject_Z_plus, He. reflexivity.
  - apply (round_half_up_fix _ 130). exact Hmax.
Qed.

(** C6.  For a record with [reviewCount] > 0 whose current ease is the
    integer [e] (the ease of the record, [baseEase] when the record has
    none), [calculateReview] returns ease max(130, e - 20) for Hard,
    which is never below the floor 130, ease [e] for Good and ease
    e + 15 for Easy. *)
Theorem subsequent_ease this now rnd p n e z :
  reviewCount p = Num n -> 0 < n ->
  ToNumber (boundEase (activeConfig this) p) = Some e ->
  e == inject_Z z ->
  num_eq (ease (fst (calculateReview this now rnd p REVIEW_DIFFICULTY.HARD)))
         (Qmax 130 (e - 20))
  /\ num_ge (ease (fst (calculateReview this now rnd p
                          REVIEW_DIFFICULTY.HARD))) 130
  /\ num_eq (ease (fst (calculateReview this now rnd p
                          REVIEW_DIFFICULTY.GOOD))) e
  /\ num_eq (ease (fst (calculateReview this now rnd p
                          REVIEW_DIFFICULTY.EASY))) (e + 15).
Proof.
  intros Hn Hpos He Hz.
  rewrite !calculateReview_review, !review_ease.
  unfold nextIntervalAndEase. rewrite (subsequent_not_first p n Hn Hpos).
  cbn [String.eqb Ascii.eqb Bool.eqb REVIEW_DIFFICULTY.HARD
       REVIEW_DIFFICULTY.GOOD REVIEW_DIFFICULTY.EASY snd].
  assert (Math_round (Math_max (Num 130)
                        (boundEase (activeConfig this) p - Num 20)%js)
          = Num (round_half_up (Qmax 130 (e - 20)))) as ->.
  { unfold Math_max, Math_round, js_sub, arith. now rewrite He. }
  pose proof (round_half_up_max_floor e z Hz) as Hfloor.
  repeat split.
  - exact Hfloor.
  - cbn. rewrite Hfloor. apply Q.le_max_l.
  - unfold Math_round. rewrite He. cbn. exact (round_half_up_fix e z Hz).
  - unfold Math_round, js_add, arith. rewrite He. cbn.
    apply (round_half_up_fix _ (z + 15)).
    rewrite inject_Z_plus, Hz. reflexivity.
Qed.

Lemma subsequent_ease_witness :
  num_eq (ease (fst (calculateReview new_algorithm 0 0 (reviewed_once 1)
                       REVIEW_DIFFICULTY.HARD))) (Qmax 130 (250 - 20))
  /\ num_ge (ease (fst (calculateReview new_algorithm 0 0 (reviewed_once 1)
                          REVIEW_DIFFICULTY.HARD))) 130
  /\ num_eq (ease (fst (calculateReview new_algorithm 0 0 (reviewed_once 1)
                          REVIEW_DIFFICULTY.GOOD))) 250
  /\ num_eq (ease (fst (calculateReview new_algorithm 0 0 (reviewed_once 1)
                          REVIEW_DIFFICULTY.EASY))) (250 + 15).
Proof.
  apply (subsequent_ease new_algorithm 0 0 (reviewed_once 1) 1 250 250).
  - reflexivity.
  - reflexivity.
  - reflexivity.
  - reflexivity.
Defined.

(** An ease that is not an integer comes back rounded. *)
Lemma fractional_ease_rounded :
  ease (review DEFAULT_ALGORITHM_CONFIG 0 0
          {| reviewCount := Num 1; ease := Num (501 # 2); interval := Num 1;
             lastReview := Null; dueDate := Null; difficulty := None |}
          REVIEW_DIFFICULTY.GOOD) = Num 251.
Proof. reflexivity. Qed.

(** ** Outcomes outside the vocabulary *)

Lemma balanced_numeric cfg rnd v i :
  ToNumber v = Some i ->
  exists x,
    ToNumber (if enableLoadBalancer cfg && js_ge v (Num 1)
              then applyLoadBalancer rnd v else v) = Some x.
Proof.
  intros Hv.
  destruct (enableLoadBalancer cfg && js_ge v (Num 1)); [|eauto].
  unfold applyLoadBalancer. destruct (js_lt v (Num 1)); [eauto|].
  unfold js_mul at 1, arith. rewrite Hv. cbn. eauto.
Qed.

(** C10.  With [reviewCount] > 0 and an outcome [d] other than "hard",
    "good" and "easy", [calculateReview] still returns a record: the
    branch hands the old interval and the old ease on to the load
    balancer and the cap; the result has [reviewCount] one higher,
    [lastReview] set to now, the outcome recorded, the ease unchanged
    (for an integer ease), and a numeric [dueDate] and interval whenever
    the old interval is a number; with the load balancer off and the old
    interval [i] under the cap, the new interval is [i] rounded to two
    decimals and the due date is [i] days ahead. *)
Theorem unknown_outcome_review this now rnd p n d :
  d <> REVIEW_DIFFICULTY.HARD -> d <> REVIEW_DIFFICULTY.GOOD ->
  d <> REVIEW_DIFFICULTY.EASY ->
  reviewCount p = Num n -> 0 < n ->
  nextIntervalAndEase (activeConfig this) (boundReviewCount p)
    (boundEase (activeConfig this) p) (boundInterval p) d
  = (boundInterval p, boundEase (activeConfig this) p)
  /\ reviewCount (fst (calculateReview this now rnd p d)) = Num (n + 1)
  /\ lastReview (fst (calculateReview this now rnd p d)) = Num (inject_Z now)
  /\ difficulty (fst (calculateReview this now rnd p d)) = Some d
  /\ (forall e z,
        ToNumber (boundEase (activeConfig this) p) = Some e ->
        e == inject_Z z ->
        num_eq (ease (fst (calculateReview this now rnd p d))) e)
  /\ (forall i,
        ToNumber (boundInterval p) = Some i ->
        (exists t, dueDate (fst (calculateReview this now rnd p d)) = Num t)
        /\ exists x,
             interval (fst (calculateReview this now rnd p d)) = Num x)
  /\ (forall i,
        boundInterval p = Num i ->
        enableLoadBalancer (activeConfig this) = false ->
        i <= maxIntervalDays (activeConfig this) ->
        num_eq (interval (fst (calculateReview this now rnd p d))) (round2 i)
        /\ num_eq (dueDate (fst (calculateReview this now rnd p d)))
                  (inject_Z now + i * 24 * 60 * 60 * 1000)).
Proof.
  intros Hh Hg He Hn Hpos.
  pose proof (branch_other (activeConfig this) p n Hn Hpos d Hh Hg He)
    as Hbranch.
  rewrite calculateReview_review. set (cfg := activeConfig this) in *.
  split; [exact Hbranch|].
  split; [rewrite review_reviewCount; unfold boundReviewCount;
          now rewrite Hn|].
  unfold review.
  fold (boundReviewCount p) (boundEase cfg p) (boundInterval p).
  rewrite Hbranch. cbn [lastReview difficulty ease interval dueDate].
  split; [reflexivity|]. split; [reflexivity|]. split; [|split].
  - intros e z Hease Hz. unfold Math_round. rewrite Hease. cbn.
    exact (round_half_up_fix e z Hz).
  - intros i Hi.
    destruct (balanced_numeric cfg rnd _ i Hi) as [x Hx].
    rewrite (Math_min_num _ _ x Hx). cbn. eauto.
  - intros i Hi Hlb Hcap. rewrite Hi, Hlb. cbn.
    split.
    + apply round2_comp. now apply Q.min_l.
    + rewrite Q.min_l by assumption. reflexivity.
Qed.

Lemma unknown_outcome_review_witness :
  reviewCount (fst (calculateReview (configured config_without_balancer)
                      0 0 (reviewed_once 1) "again"))
  = Num (1 + 1)
  /\ num_eq (ease (fst (calculateReview (configured config_without_balancer)
                          0 0 (reviewed_once 1) "again"))) 250
  /\ num_eq (interval (fst (calculateReview
                              (configured config_without_balancer)
                              0 0 (reviewed_once 1) "again"))) (round2 1).
Proof.
  pose proof (unknown_outcome_review (configured config_without_balancer)
                0 0 (reviewed_once 1) 1 "again"
                ltac:(discriminate) ltac:(discriminate) ltac:(discriminate)
                eq_refl eq_refl)
    as (_ & Hcount & _ & _ & Hease & _ & Hplain).
  split; [exact Hcount|]. split.
  - apply (Hease 250 250%Z); reflexivity.
  - apply (Hplain 1); [reflexivity | reflexivity | vm_compute; discriminate].
Defined.

(** At a first review there is no such fallback: the lookup of an unknown
    outcome is [undefined], and interval and due date come out as NaN. *)
Lemma unknown_outcome_first_review :
  interval (review DEFAULT_ALGORITHM_CONFIG 0 0 default_progress "again") = NaN
  /\ dueDate (review DEFAULT_ALGORITHM_CONFIG 0 0 default_progress "again")
     = NaN.
Proof. split; reflexivity. Qed.

(** ** Initial ease *)

(** The rounding of the machine: [binary64 x] misses [x] by no more than
    a half unit of the last of its 53 bits, or of the least subnormal
    number. *)















(** The half-way case: with baseEase 130 and maxLinkContribution 57 a
    linked ease of 780 has the exact value 500.5, which [Math.round]
    would take to 501; the product 650 * 0.57 comes out of the machine
    just under 370.5, and the function returns 500. *)
Lemma initial_ease_half_rounds_down :
  calculateInitialEase {| config := config_link_57; configLoaded := true |}
    (Num 780) = Num 500
  /\ linked_ease_value config_link_57 780 == 500 + (1 # 2)
  /\ round_half_up (linked_ease_value config_link_57 780) == 501.
Proof. repeat split; vm_compute; reflexivity. Qed.

(** [options.linkedEase && ...] tests for truthiness: a linked ease of 0
    reads as none given. *)
Lemma linked_ease_zero_reads_as_absent :
  calculateInitialEase new_algorithm (Num 0) = Num (Qmax 130 250)
  /\ calculateInitialEase new_algorithm Undefined = Num (Qmax 130 250).
Proof. split; reflexivity. Qed.

(** * Properties of the scheduler *)

(** ** Running the methods *)

Lemma run_bind {S A B : Type} (m : M S A) (k : A -> M S B) s a s' :
  m s = (Ret a, s') -> (m ≫= k) s = k a s'.
Proof. intros H. unfold mbind, M_bind, bind. now rewrite H. Qed.

(** A handler that rethrows leaves the outcome of the body as it is. *)
Lemma try_catch_rethrow {S A : Type} (m : M S A) s :
  try_catch m (fun e => throw e) s = m s.
Proof. unfold try_catch, throw. now destruct (m s) as [[a|e] s']. Qed.

Section Loaded.
Variables (l : list Flashcard) (ps : ProgressState)
          (alg : SpacedRepetitionAlgorithm) (st : StorageManager).

Lemma run_getFlashcardProgress i :
  on_manager (getFlashcardProgress i) (loaded l ps alg, st)
  = (Ret (progress_of ps i), (loaded l ps alg, st)).
Proof. reflexivity. Qed.

Lemma run_getFlashcardById i :
  on_manager (getFlashcardById i) (loaded l ps alg, st)
  = (Ret (List.find (fun fc => String.eqb (id fc) i) l),
     (loaded l ps alg, st)).
Proof. reflexivity. Qed.

Lemma run_getUnshownFlashcards :
  on_manager getUnshownFlashcards (loaded l ps alg, st)
  = (Ret (List.filter (fun i => negb (includes (completed ps) i))
                      (map id l)),
     (loaded l ps alg, st)).
Proof. reflexivity. Qed.

Lemma run_mapM_progress (l' : list Flashcard) :
  mapM (fun fc =>
          fcProgress ← on_manager (getFlashcardProgress (id fc));
          ret (fc, fcProgress)) l' (loaded l ps alg, st)
  = (Ret (map (with_progress ps) l'), (loaded l ps alg, st)).
Proof.
  induction l' as [|fc l' IH]; [reflexivity|].
  cbn [mapM].
  erewrite run_bind;
    [|erewrite run_bind; [reflexivity|apply run_getFlashcardProgress]].
  erewrite run_bind; [|apply IH]. reflexivity.
Qed.

Lemma run_getDueFlashcard now :
  getDueFlashcard now (loaded l ps alg, st)
  = (Ret (head (js_sort compareDue (due_candidates l ps now))),
     (loaded l ps alg, st)).
Proof.
  unfold getDueFlashcard.
  erewrite run_bind; [|reflexivity]. cbv beta.
  change (negb (dependencies_set (fst (loaded l ps alg, st)))) with false.
  cbv iota.
  erewrite run_bind; [|reflexivity].
  erewrite run_bind; [|apply run_mapM_progress]. reflexivity.
Qed.

Lemma run_getNextFlashcard_due now rnd r :
  head (js_sort compareDue (due_candidates l ps now)) = Some r ->
  getNextFlashcard now rnd (loaded l ps alg, st)
  = (Ret (Some r), (loaded l ps alg, st)).
Proof.
  intros Hr. unfold getNextFlashcard.
  erewrite run_bind; [|reflexivity]. cbv beta.
  change (negb (dependencies_set (fst (loaded l ps alg, st)))) with false.
  cbv iota.
  erewrite run_bind; [|apply run_getDueFlashcard]. now rewrite Hr.
Qed.
End Loaded.

(** ** The order of the due tier *)

Lemma or_zero_num v :
  or_zero v = Num (match ToNumber (or_zero v) with
                   | Some q => q
                   | None => 0
                   end).
Proof.
  unfold or_zero. destruct (truthy v) eqn:Hv; [|reflexivity].
  destruct v; try discriminate. reflexivity.
Qed.

(** With a due date missing on either side the comparison goes by
    review count ... *)
Lemma SortCompare_by_count a b :
  truthy (dueDate (snd a)) && truthy (dueDate (snd b)) = false ->
  SortCompare compareDue a b = count_number a - count_number b.
Proof.
  intros H. unfold SortCompare, compareDue. rewrite H.
  rewrite (or_zero_num (reviewCount (snd a))),
          (or_zero_num (reviewCount (snd b))).
  reflexivity.
Qed.

(** ... and with both present, by due date. *)
Lemma SortCompare_by_due a b da db :
  dueDate (snd a) = Num da -> dueDate (snd b) = Num db ->
  ~ da == 0 -> ~ db == 0 ->
  SortCompare compareDue a b = da - db.
Proof.
  intros Ha Hb Hda Hdb. unfold SortCompare, compareDue.
  rewrite Ha, Hb. cbn [truthy].
  apply Qeq_bool_false in Hda, Hdb. now rewrite Hda, Hdb.
Qed.

Lemma count_number_nonneg x : classified x -> 0 <= count_number x.
Proof. intros [[_ H]|H]; unfold reviewed in *; lra. Qed.

Lemma head_sort_insert x lst :
  head (sort_insert compareDue x lst) = Some x
  \/ head (sort_insert compareDue x lst) = head lst.
Proof.
  destruct lst as [|y lst]; cbn; [now left|].
  destruct (Qle_bool _ _); [now left|now right].
Qed.

Lemma head_js_sort_In lst h :
  head (js_sort compareDue lst) = Some h -> In h lst.
Proof.
  revert h. induction lst as [|x lst IH]; intros h; [discriminate|].
  cbn [js_sort].
  destruct (head_sort_insert x (js_sort compareDue lst)) as [-> | ->].
  - intros [= ->]. now left.
  - intros H. right. now apply IH.
Qed.

(** A never-reviewed card goes before whatever leads the sorted rest. *)
Lemma never_reviewed_first x lst :
  never_reviewed x ->
  (forall y, head lst = Some y -> classified y) ->
  head (sort_insert compareDue x lst) = Some x.
Proof.
  intros [Hdue Hcount] Hhead. destruct lst as [|y lst]; [reflexivity|].
  cbn. rewrite SortCompare_by_count by (now rewrite Hdue).
  pose proof (count_number_nonneg y (Hhead y eq_refl)).
  assert (Qle_bool (count_number x - count_number y) 0 = true) as ->;
    [|reflexivity].
  apply Qle_bool_iff. lra.
Qed.

(** A reviewed card stays behind a never-reviewed head. *)
Lemma reviewed_behind x y lst :
  reviewed x -> never_reviewed y ->
  head (sort_insert compareDue x (y :: lst)) = Some y.
Proof.
  intros Hx [Hdue Hcount]. cbn.
  rewrite SortCompare_by_count by (rewrite Hdue; apply andb_false_r).
  assert (Qle_bool (count_number x - count_number y) 0 = false) as ->;
    [|reflexivity].
  apply Qle_bool_false. unfold reviewed in Hx. lra.
Qed.

(** As soon as a never-reviewed card is among the candidates, one of
    them leads the sorted array, however overdue the others are. *)
Lemma js_sort_never_reviewed_first lst :
  Forall classified lst -> Exists never_reviewed lst ->
  exists h, head (js_sort compareDue lst) = Some h
            /\ never_reviewed h /\ In h lst.
Proof.
  induction lst as [|x lst IH]; intros Hall Hex.
  - inversion Hex.
  - inversion Hall as [|? ? Hx Hrest]; subst. cbn [js_sort].
    assert (forall y, head (js_sort compareDue lst) = Some y -> classified y)
      as Hhead.
    { intros y Hy. apply head_js_sort_In in Hy.
      exact (proj1 (List.Forall_forall _ _) Hrest y Hy). }
    destruct Hx as [Hnew | Hrev].
    + exists x. rewrite never_reviewed_first by assumption.
      repeat split; try apply Hnew. now left.
    + inversion Hex as [? ? Hnew | ? ? Hlater]; subst.
      * destruct Hnew as [_ Hzero]. unfold reviewed in Hrev. lra.
      * destruct (IH Hrest Hlater) as (h & Hh & Hnew & Hin).
        exists h. destruct (js_sort compareDue lst) as [|y s] eqn:Hs;
          [discriminate|].
        injection Hh as ->. rewrite reviewed_behind by assumption.
        repeat split; try apply Hnew. now right.
Qed.

Section ThreeItems.
Variables (overdue future fresh : Flashcard).
Variables (l : list Flashcard) (ps : ProgressState).
Variables (now : Z) (dueOverdue dueFuture countOverdue : Q).

Hypothesis Hcatalog : Permutation [overdue; future; fresh] l.
Hypothesis Hoverdue_due :
  dueDate (progress_of ps (id overdue)) = Num dueOverdue.
Hypothesis Hoverdue_past : 0 < dueOverdue /\ dueOverdue < inject_Z now.
Hypothesis Hoverdue_count :
  reviewCount (progress_of ps (id overdue)) = Num countOverdue.
Hypothesis Hoverdue_reviewed : 0 < countOverdue.
Hypothesis Hfuture_due :
  dueDate (progress_of ps (id future)) = Num dueFuture.
Hypothesis Hfuture_later : inject_Z now < dueFuture.
Hypothesis Hfresh_due : truthy (dueDate (progress_of ps (id fresh))) = false.
Hypothesis Hfresh_count : reviewCount (progress_of ps (id fresh)) = Num 0.

Lemma overdue_reviewed : reviewed (with_progress ps overdue).
Proof.
  unfold reviewed, count_number, with_progress, or_zero. cbn [snd].
  rewrite Hoverdue_count. cbn [truthy].
  assert (Qeq_bool countOverdue 0 = false) as ->
    by (apply Qeq_bool_false; lra).
  exact Hoverdue_reviewed.
Qed.

Lemma overdue_has_due :
  truthy (dueDate (progress_of ps (id overdue))) = true.
Proof.
  rewrite Hoverdue_due. cbn.
  assert (Qeq_bool dueOverdue 0 = false) as ->
    by (apply Qeq_bool_false; lra).
  reflexivity.
Qed.

Lemma overdue_is_due : isDue now (progress_of ps (id overdue)) = true.
Proof.
  unfold isDue. rewrite overdue_has_due. cbn [negb].
  rewrite Hoverdue_due. cbn. apply Qle_bool_iff. lra.
Qed.

Lemma future_has_due : truthy (dueDate (progress_of ps (id future))) = true.
Proof.
  rewrite Hfuture_due. cbn.
  assert (Qeq_bool dueFuture 0 = false) as ->
    by (apply Qeq_bool_false; lra).
  reflexivity.
Qed.

Lemma future_not_due : isDue now (progress_of ps (id future)) = false.
Proof.
  unfold isDue. rewrite future_has_due. cbn [negb].
  rewrite Hfuture_due. cbn. apply Qle_bool_false. exact Hfuture_later.
Qed.

Lemma fresh_never_reviewed : never_reviewed (with_progress ps fresh).
Proof.
  split; [exact Hfresh_due|].
  unfold count_number, with_progress. cbn [snd]. now rewrite Hfresh_count.
Qed.

Lemma candidate_cases x :
  In x (due_candidates l ps now) ->
  x = with_progress ps overdue \/ x = with_progress ps fresh.
Proof.
  unfold due_candidates. rewrite filter_In, in_map_iff.
  intros [(fc & <- & Hfc) Hpass].
  apply (Permutation_in _ (Permutation_sym Hcatalog)) in Hfc.
  destruct Hfc as [<- | [<- | [<- | []]]]; [now left| |now right].
  cbn [with_progress snd] in Hpass.
  now rewrite future_has_due, future_not_due in Hpass.
Qed.

(** Both the overdue and the never-reviewed card are in the due tier. *)
Lemma overdue_is_candidate :
  In (with_progress ps overdue) (due_candidates l ps now).
Proof.
  unfold due_candidates. rewrite filter_In, in_map_iff. split.
  - exists overdue. split; [reflexivity|].
    apply (Permutation_in _ Hcatalog). cbn. tauto.
  - cbn [with_progress snd]. rewrite overdue_is_due. apply orb_true_r.
Qed.

Lemma fresh_is_candidate :
  In (with_progress ps fresh) (due_candidates l ps now).
Proof.
  unfold due_candidates. rewrite filter_In, in_map_iff. split.
  - exists fresh. split; [reflexivity|].
    apply (Permutation_in _ Hcatalog). cbn. tauto.
  - cbn [with_progress snd]. now rewrite Hfresh_due.
Qed.

Lemma three_items_head :
  head (js_sort compareDue (due_candidates l ps now))
  = Some (with_progress ps fresh).
Proof.
  destruct (js_sort_never_reviewed_first (due_candidates l ps now))
    as (h & Hh & Hnew & Hin).
  - apply List.Forall_forall. intros x Hx.
    destruct (candidate_cases x Hx) as [-> | ->].
    + right. exact overdue_reviewed.
    + left. exact fresh_never_reviewed.
  - apply List.Exists_exists. exists (with_progress ps fresh).
    split; [exact fresh_is_candidate | exact fresh_never_reviewed].
  - rewrite Hh. f_equal.
    destruct (candidate_cases h Hin) as [-> | ->]; [|reflexivity].
    destruct Hnew as [Hdue _]. cbn [with_progress snd] in Hdue.
    now rewrite overdue_has_due in Hdue.
Qed.
End ThreeItems.

(** C1, as amended.  On a catalog of exactly three cards, in any order,
    of which one is overdue (due date in the past, reviewCount > 0), one
    is due in the future and one was never reviewed (no due date,
    reviewCount 0), [getNextFlashcard] returns the never-reviewed card:
    it is in the due tier too, and the sort rule of that tier compares
    due dates numerically when both cards have one and goes by the lower
    review count as soon as either has none. *)
Theorem next_flashcard_three_items
    (overdue future fresh : Flashcard) (l : list Flashcard)
    (ps : ProgressState) (alg : SpacedRepetitionAlgorithm)
    (st : StorageManager) (now : Z) (rnd : Q)
    (dueOverdue dueFuture countOverdue : Q) :
  Permutation [overdue; future; fresh] l ->
  dueDate (progress_of ps (id overdue)) = Num dueOverdue ->
  0 < dueOverdue /\ dueOverdue < inject_Z now ->
  reviewCount (progress_of ps (id overdue)) = Num countOverdue ->
  0 < countOverdue ->
  dueDate (progress_of ps (id future)) = Num dueFuture ->
  inject_Z now < dueFuture ->
  truthy (dueDate (progress_of ps (id fresh))) = false ->
  reviewCount (progress_of ps (id fresh)) = Num 0 ->
  getNextFlashcard now rnd (loaded l ps alg, st)
  = (Ret (Some (fresh, progress_of ps (id fresh))), (loaded l ps alg, st))
  /\ In (with_progress ps overdue) (due_candidates l ps now)
  /\ (forall a b da db,
        dueDate (snd a) = Num da -> dueDate (snd b) = Num db ->
        ~ da == 0 -> ~ db == 0 ->
        SortCompare compareDue a b = da - db)
  /\ (forall a b,
        truthy (dueDate (snd a)) && truthy (dueDate (snd b)) = false ->
        SortCompare compareDue a b = count_number a - count_number b).
Proof.
  intros. split; [|split; [|split]].
  - apply run_getNextFlashcard_due.
    eapply three_items_head; eassumption.
  - eapply overdue_is_candidate; eassumption.
  - apply SortCompare_by_due.
  - apply SortCompare_by_count.
Qed.

Lemma next_flashcard_three_items_witness :
  getNextFlashcard 2000 0
    (loaded [fc1; fc2; fc3] two_reviewed new_algorithm, empty_storage)
  = (Ret (Some (fc3, progress_of two_reviewed (id fc3))),
     (loaded [fc1; fc2; fc3] two_reviewed new_algorithm, empty_storage)).
Proof.
  refine (proj1 (next_flashcard_three_items fc1 fc2 fc3 [fc1; fc2; fc3]
                   two_reviewed new_algorithm empty_storage 2000 0
                   1000 3000 1 _ _ _ _ _ _ _ _ _)).
  - apply Permutation_refl.
  - vm_compute. reflexivity.
  - split; reflexivity.
  - vm_compute. reflexivity.
  - reflexivity.
  - vm_compute. reflexivity.
  - reflexivity.
  - vm_compute. reflexivity.
  - vm_compute. reflexivity.
Defined.

(** fc-1 overdue since 1000, fc-2 due at 3000, fc-3 never reviewed; at
    time 2000 the scheduler picks fc-3, not fc-1. *)
Lemma next_flashcard_three_items_counterexample :
  fst (getNextFlashcard 2000 0
         (loaded [fc1; fc2; fc3] two_reviewed new_algorithm, empty_storage))
  = Ret (Some (fc3, default_progress))
  /\ fst (getNextFlashcard 2000 0
            (loaded [fc1; fc2; fc3] two_reviewed new_algorithm, empty_storage))
     <> Ret (Some (fc1, due_at 1000)).
Proof.
  assert (fst (getNextFlashcard 2000 0
                 (loaded [fc1; fc2; fc3] two_reviewed new_algorithm,
                  empty_storage))
          = Ret (Some (fc3, default_progress))) as H
    by (vm_compute; reflexivity).
  split; [exact H|]. rewrite H. discriminate.
Qed.

(** ** Recording a review *)

Lemma run_updateFlashcardProgress l ps alg st i updated :
  on_manager (updateFlashcardProgress i updated) (loaded l ps alg, st)
  = (Ret tt,
     (loaded l
        {| completed := completed ps;
           repeatLater := repeatLater ps;
           flashcardData :=
             <[i := spread (match flashcardData ps !! i with
                            | Some d => d
                            | None => empty_object
                            end) updated]> (flashcardData ps) |} alg,
      snd (storage_saveProgress st
             {| completed := completed ps;
                repeatLater := repeatLater ps;
                flashcardData :=
                  <[i := spread (match flashcardData ps !! i with
                                 | Some d => d
                                 | None => empty_object
                                 end) updated]> (flashcardData ps) |}))).
Proof. reflexivity. Qed.

Lemma run_markAsDone l ps alg st i :
  on_manager (markAsDone i) (loaded l ps alg, st)
  = (Ret tt,
     if includes (completed ps) i then (loaded l ps alg, st)
     else (loaded l
             {| completed := completed ps ++ [i];
                repeatLater := repeatLater ps;
                flashcardData := flashcardData ps |} alg,
           snd (storage_saveProgress st
                  {| completed := completed ps ++ [i];
                     repeatLater := repeatLater ps;
                     flashcardData := flashcardData ps |}))).
Proof.
  unfold on_manager, markAsDone, mbind, M_bind, bind, this. cbn.
  destruct (includes (completed ps) i); reflexivity.
Qed.

Lemma run_removeFromLater l ps alg st q i :
  repeatLater ps = Some q ->
  on_manager (removeFromLater i) (loaded l ps alg, st)
  = (Ret tt,
     (loaded l
        {| completed := completed ps;
           repeatLater :=
             Some (List.filter (fun fcId => negb (String.eqb fcId i)) q);
           flashcardData := flashcardData ps |} alg,
      snd (storage_saveProgress st
             {| completed := completed ps;
                repeatLater :=
                  Some (List.filter (fun fcId => negb (String.eqb fcId i)) q);
                flashcardData := flashcardData ps |}))).
Proof.
  intros Hq. unfold on_manager, removeFromLater, mbind, M_bind, bind, this.
  cbn. rewrite Hq. reflexivity.
Qed.

Lemma run_recordReview l ps alg st q i d now rnd :
  repeatLater ps = Some q ->
  recordReview i d now rnd (loaded l ps alg, st)
  = (Ret tt,
     (loaded l
        (reviewed_state ps q i
           (fst (calculateReview alg now rnd (progress_of ps i) d))
           (String.eqb d REVIEW_DIFFICULTY.GOOD
            || String.eqb d REVIEW_DIFFICULTY.EASY))
        (snd (calculateReview alg now rnd (progress_of ps i) d)),
      snd (storage_saveProgress st
             (reviewed_state ps q i
                (fst (calculateReview alg now rnd (progress_of ps i) d))
                (String.eqb d REVIEW_DIFFICULTY.GOOD
                 || String.eqb d REVIEW_DIFFICULTY.EASY))))).
Proof.
  intros Hq. unfold recordReview.
  erewrite run_bind; [|reflexivity]. cbv beta.
  cbn [fst loaded flashcardManager algorithm].
  erewrite run_bind; [|apply run_getFlashcardProgress].
  destruct (calculateReview alg now rnd (progress_of ps i) d)
    as [updated alg'] eqn:Hcalc.
  assert (Hspread : forall old, spread old updated = updated).
  { intros old. pose proof (spread_calculateReview old alg now rnd
                              (progress_of ps i) d) as H.
    now rewrite Hcalc in H. }
  cbn [fst snd].
  erewrite run_bind; [|reflexivity].
  erewrite run_bind; [|apply (run_updateFlashcardProgress l ps alg')].
  rewrite Hspread. unfold reviewed_state.
  destruct (String.eqb d REVIEW_DIFFICULTY.GOOD
            || String.eqb d REVIEW_DIFFICULTY.EASY); cbn [andb].
  - erewrite run_bind; [|apply run_markAsDone]. cbn [completed].
    destruct (includes (completed ps) i); cbn [negb];
      (erewrite run_removeFromLater; [|cbn; exact Hq]);
      destruct st as [sto []]; reflexivity.
  - rewrite Hq. reflexivity.
Qed.

(** C7.  On a loaded state [recordReview] writes the record computed by
    [calculateReview] under the card's id; with outcome "good" or "easy"
    it also appends the id to [completed] unless it is there already and
    filters it out of the [repeatLater] queue; with outcome "hard" it
    leaves [completed] and the queue as they were.  A writable storage
    ends up holding the new state. *)
Theorem recordReview_bookkeeping l ps alg st q i d now rnd :
  repeatLater ps = Some q ->
  exists ps' alg' st',
    recordReview i d now rnd (loaded l ps alg, st)
    = (Ret tt, (loaded l ps' alg', st'))
    /\ flashcardData ps'
       = <[i := fst (calculateReview alg now rnd (progress_of ps i) d)]>
           (flashcardData ps)
    /\ (d = REVIEW_DIFFICULTY.GOOD \/ d = REVIEW_DIFFICULTY.EASY ->
        completed ps'
        = (if includes (completed ps) i then completed ps
           else completed ps ++ [i])
        /\ repeatLater ps'
           = Some (List.filter (fun fcId => negb (String.eqb fcId i)) q))
    /\ (d = REVIEW_DIFFICULTY.HARD ->
        completed ps' = completed ps /\ repeatLater ps' = Some q)
    /\ (writable st = true -> stored st' = Some ps').
Proof.
  intros Hq. eexists _, _, _.
  split; [apply (run_recordReview _ _ _ _ q), Hq|].
  split; [reflexivity|]. split; [|split].
  - intros Hd.
    assert (String.eqb d REVIEW_DIFFICULTY.GOOD
            || String.eqb d REVIEW_DIFFICULTY.EASY = true) as ->
      by (destruct Hd as [-> | ->]; reflexivity).
    cbn. now destruct (includes (completed ps) i).
  - intros ->. cbn. split; reflexivity.
  - intros Hw. unfold storage_saveProgress. now rewrite Hw.
Qed.

Lemma recordReview_bookkeeping_witness :
  exists ps' alg' st',
    recordReview "fc-1" "good" 2000 0
      (loaded [fc1; fc2; fc3] one_later new_algorithm, empty_storage)
    = (Ret tt, (loaded [fc1; fc2; fc3] ps' alg', st'))
    /\ completed ps' = ["fc-1"] /\ repeatLater ps' = Some [].
Proof.
  destruct (recordReview_bookkeeping [fc1; fc2; fc3] one_later new_algorithm
              empty_storage ["fc-1"] "fc-1" "good" 2000 0 eq_refl)
    as (ps' & alg' & st' & Hrun & _ & Hdone & _).
  exists ps', alg', st'. split; [exact Hrun|].
  exact (Hdone (or_introl eq_refl)).
Defined.

(** ** Marking for later *)

Lemma run_markForLater fm a st i :
  markForLater i ({| flashcardManager := Some fm; algorithm := a |}, st)
  = (Ret tt,
     ({| flashcardManager :=
           Some {| flashcards := flashcards fm;
                   progress := Some (marked_state fm st i) |};
         algorithm := a |},
      if includes (later_before fm st) i then st
      else snd (storage_saveProgress st (marked_state fm st i)))).
Proof.
  unfold markForLater, try_catch, on_manager, FlashcardManager_markForLater,
    marked_state, push_absent, later_before, progress_before, loadProgress,
    saveProgress, set_progress, set_storage, try_catch,
    mbind, M_bind, bind, this, storage, scheduler.
  destruct fm as [l [ps|]]; cbn.
  - destruct (repeatLater ps) as [q|]; cbn.
    + destruct (includes q i); reflexivity.
    + reflexivity.
  - destruct (repeatLater (storage_getProgress st)) as [q|]; cbn.
    + destruct (includes q i); reflexivity.
    + reflexivity.
Qed.

Lemma includes_In q i : includes q i = true <-> In i q.
Proof.
  unfold includes. rewrite existsb_exists. split.
  - intros (x & Hx & Heq). apply String.eqb_eq in Heq. now subst.
  - intros H. exists i. split; [exact H|apply String.eqb_refl].
Qed.

Lemma includes_push_absent q i : includes (push_absent q i) i = true.
Proof.
  unfold push_absent. destruct (includes q i) eqn:H; [exact H|].
  apply includes_In, in_or_app. right. now left.
Qed.

Lemma push_absent_idempotent q i :
  push_absent (push_absent q i) i = push_absent q i.
Proof.
  unfold push_absent at 1. now rewrite includes_push_absent.
Qed.

Lemma count_push_absent q i :
  List.NoDup q -> count_occ String.string_dec (push_absent q i) i = 1%nat.
Proof.
  intros Hq. unfold push_absent. destruct (includes q i) eqn:H.
  - apply includes_In in H.
    pose proof (proj1 (List.NoDup_count_occ String.string_dec q) Hq i).
    apply (count_occ_In String.string_dec) in H. lia.
  - rewrite count_occ_app. cbn.
    destruct (String.string_dec i i); [|contradiction].
    assert (~ In i q) as Hnot.
    { intros Hin. apply includes_In in Hin. congruence. }
    apply (count_occ_not_In String.string_dec) in Hnot. lia.
Qed.

(** The queue stays free of duplicates. *)
Lemma NoDup_push_absent q i : List.NoDup q -> List.NoDup (push_absent q i).
Proof.
  intros Hq. unfold push_absent. destruct (includes q i) eqn:H; [exact Hq|].
  apply NoDup_ListNoDup, NoDup_app. split; [|split].
  - now apply NoDup_ListNoDup.
  - intros x Hx Hin. apply list_elem_of_In in Hx.
    apply list_elem_of_In in Hin. destruct Hin as [<- | []].
    apply includes_In in Hx. congruence.
  - apply NoDup_singleton.
Qed.

(** C9.  [markForLater] returns, leaving the queue as it was when the id
    is on it already and with the id appended at the tail otherwise; a
    second call in succession changes nothing, neither in the manager
    nor in the storage; and on a queue without duplicates the id is then
    on the queue exactly once. *)
Theorem markForLater_idempotent fm a st i :
  fst (markForLater i ({| flashcardManager := Some fm; algorithm := a |}, st))
  = Ret tt
  /\ later_queue
       (snd (markForLater i
               ({| flashcardManager := Some fm; algorithm := a |}, st)))
     = Some (push_absent (later_before fm st) i)
  /\ markForLater i
       (snd (markForLater i
               ({| flashcardManager := Some fm; algorithm := a |}, st)))
     = (Ret tt,
        snd (markForLater i
               ({| flashcardManager := Some fm; algorithm := a |}, st)))
  /\ (~ In i (later_before fm st) ->
      push_absent (later_before fm st) i = later_before fm st ++ [i])
  /\ (In i (later_before fm st) ->
      push_absent (later_before fm st) i = later_before fm st)
  /\ (List.NoDup (later_before fm st) ->
      count_occ String.string_dec (push_absent (later_before fm st) i) i
      = 1%nat).
Proof.
  rewrite run_markForLater. cbn [fst snd].
  split; [reflexivity|]. split; [reflexivity|]. split; [|split; [|split]].
  - set (fm1 := {| flashcards := flashcards fm;
                    progress := Some (marked_state fm st i) |}).
    set (st1 := if includes (later_before fm st) i then st
                else snd (storage_saveProgress st (marked_state fm st i))).
    rewrite (run_markForLater fm1 a st1 i).
    assert (later_before fm1 st1 = push_absent (later_before fm st) i)
      as Hq by reflexivity.
    assert (marked_state fm1 st1 i = marked_state fm st i) as ->.
    { unfold marked_state at 1. rewrite Hq, push_absent_idempotent.
      reflexivity. }
    now rewrite Hq, includes_push_absent.
  - intros Hnot. unfold push_absent.
    destruct (includes (later_before fm st) i) eqn:H; [|reflexivity].
    apply includes_In in H. contradiction.
  - intros Hin. unfold push_absent.
    apply includes_In in Hin. now rewrite Hin.
  - apply count_push_absent.
Qed.

Lemma markForLater_idempotent_witness :
  later_queue
    (snd (markForLater "fc-2"
            (loaded [fc1; fc2; fc3] one_later new_algorithm, empty_storage)))
  = Some ["fc-1"; "fc-2"]
  /\ count_occ String.string_dec ["fc-1"; "fc-2"] "fc-2" = 1%nat.
Proof.
  destruct (markForLater_idempotent
              {| flashcards := [fc1; fc2; fc3]; progress := Some one_later |}
              (Some new_algorithm) empty_storage "fc-2")
    as (_ & Hqueue & _ & _ & _ & Hcount).
  split; [exact Hqueue|].
  apply Hcount. vm_compute. repeat constructor; cbn; intuition discriminate.
Defined.

(** A queue that came with a duplicate keeps it. *)
Lemma markForLater_keeps_duplicates :
  later_queue
    (snd (markForLater "fc-1"
            (loaded [fc1]
               {| completed := []; repeatLater := Some ["fc-1"; "fc-1"];
                  flashcardData := ∅ |} new_algorithm, empty_storage)))
  = Some ["fc-1"; "fc-1"].
Proof. reflexivity. Qed.

(** [recordReview] keeps the queue free of duplicates too. *)
Lemma NoDup_reviewed_state ps q i updated done :
  List.NoDup q ->
  exists q', repeatLater (reviewed_state ps q i updated done) = Some q'
             /\ List.NoDup q'.
Proof.
  intros Hq. eexists. split; [reflexivity|].
  destruct done; [now apply List.NoDup_filter | exact Hq].
Qed.

(** ** Failures *)





Lemma unset_markForLater sch st i :
  flashcardManager sch = None ->
  markForLater i (sch, st) = (Ret tt, (sch, st)).
Proof.
  intros H. unfold markForLater.
  erewrite run_bind; [|reflexivity]. cbn [fst].
  unfold manager_set. now rewrite H.
Qed.

(** With the manager set, the outcome of [markForLater] is the outcome of
    the manager's method, thrown errors included. *)
Lemma markForLater_propagates sch st i :
  manager_set sch = true ->
  markForLater i (sch, st)
  = on_manager (FlashcardManager_markForLater i) (sch, st).
Proof.
  intros H. unfold markForLater.
  erewrite run_bind; [|reflexivity]. cbn [fst]. rewrite H. cbn [negb].
  apply try_catch_rethrow.
Qed.

Section LoadedReturns.
Variables (l : list Flashcard) (ps : ProgressState)
          (alg : SpacedRepetitionAlgorithm) (st : StorageManager)
          (q : list string).
Hypothesis Hq : repeatLater ps = Some q.







End LoadedReturns.

(** * Further properties of the review algorithm *)

(** ** The load balancer *)

Lemma js_lt_num x y : js_lt (Num x) (Num y) = negb (Qle_bool y x).
Proof. reflexivity. Qed.

Lemma applyLoadBalancer_range rnd x :
  0 <= rnd -> rnd < 1 ->
  (x < 1 -> applyLoadBalancer rnd (Num x) = Num x)
  /\ (1 <= x ->
      exists y, applyLoadBalancer rnd (Num x) = Num y
                /\ (95 # 100) * x <= y /\ y < (105 # 100) * x).
Proof.
  intros H0 H1. unfold applyLoadBalancer. rewrite js_lt_num. split.
  - intros Hx. now rewrite (proj2 (Qle_bool_false 1 x) Hx).
  - intros Hx. rewrite (proj2 (Qle_bool_iff 1 x) Hx). cbn.
    eexists. split; [reflexivity|]. split; nra.
Qed.

(** X1.  For a value of [Math.random()] in [0, 1), [applyLoadBalancer]
    leaves an interval under one day as it is and moves an interval of
    one day or more by less than 5 %: the result lies in
    [0.95 x, 1.05 x). *)
Theorem applyLoadBalancer_bounds rnd x :
  0 <= rnd -> rnd < 1 ->
  (x < 1 -> applyLoadBalancer rnd (Num x) = Num x)
  /\ (1 <= x ->
      exists y, applyLoadBalancer rnd (Num x) = Num y
                /\ (95 # 100) * x <= y /\ y < (105 # 100) * x).
Proof.
  intros H0 H1. unfold applyLoadBalancer. rewrite js_lt_num. split.
  - intros Hx. apply Qle_bool_false in Hx. now rewrite Hx.
  - intros Hx. rewrite (proj2 (Qle_bool_iff 1 x) Hx). cbn.
    exists (x * (1 + (rnd * 2 - 1) * (5 # 100))).
    split; [reflexivity|]. split; nra.
Qed.

Lemma applyLoadBalancer_bounds_witness :
  exists y, applyLoadBalancer (1 # 4) (Num 10) = Num y
            /\ (95 # 100) * 10 <= y /\ y < (105 # 100) * 10.
Proof.
  refine (proj2 (applyLoadBalancer_bounds (1 # 4) 10 _ _) _).
  - vm_compute. discriminate.
  - reflexivity.
  - vm_compute. discriminate.
Defined.

(** ** Interval and due date of a result *)

Lemma round2_close x : - (1 # 200) <= round2 x - x /\ round2 x - x <= 1 # 200.
Proof.
  unfold round2, round_half_up.
  pose proof (Qfloor_le (x * 100 + (1 # 2))) as Hle.
  pose proof (Qlt_floor (x * 100 + (1 # 2))) as Hlt.
  rewrite inject_Z_plus in Hlt. change (inject_Z 1) with 1 in Hlt.
  set (f := inject_Z (Qfloor (x * 100 + (1 # 2)))) in *.
  div100. split; lra.
Qed.

(** X2.  Whenever the interval of a result is a number, so is its due
    date, and the due date is the time of the review plus that interval
    in days, up to the rounding of the stored interval to two decimals:
    the two differ by at most 0.005 day, 432000 ms. *)
Theorem interval_matches_dueDate cfg now rnd p d x :
  interval (review cfg now rnd p d) = Num x ->
  exists due,
    dueDate (review cfg now rnd p d) = Num due
    /\ - 432000 <= due - (inject_Z now + x * 86400000)
    /\ due - (inject_Z now + x * 86400000) <= 432000.
Proof.
  unfold review. destruct (nextIntervalAndEase _ _ _ _ _) as [v e].
  cbn [interval dueDate]. rewrite rounded_two_places.
  match goal with
  | |- context [Math_min ?w ?m] => destruct (ToNumber w) as [y|] eqn:Hw
  end.
  - rewrite (Math_min_num _ _ y Hw). cbn. intros [= <-].
    eexists. split; [reflexivity|].
    pose proof (round2_close (Qmin y (maxIntervalDays cfg))).
    split; lra.
  - unfold Math_min, arith. rewrite Hw. discriminate.
Qed.

Lemma interval_matches_dueDate_witness :
  exists due,
    dueDate (review DEFAULT_ALGORITHM_CONFIG 1000 (9 # 10) default_progress
               REVIEW_DIFFICULTY.GOOD) = Num due
    /\ - 432000 <= due - (inject_Z 1000 + (104 # 100) * 86400000)
    /\ due - (inject_Z 1000 + (104 # 100) * 86400000) <= 432000.
Proof.
  apply (interval_matches_dueDate DEFAULT_ALGORITHM_CONFIG 1000 (9 # 10)
           default_progress REVIEW_DIFFICULTY.GOOD (104 # 100)).
  reflexivity.
Defined.

(** ** A first review and the due tier *)

Lemma DEFAULT_INTERVALS_known d :
  known_outcome d ->
  exists x, DEFAULT_INTERVALS d = Num x /\ 1 # 2 <= x.
Proof.
  intros [-> | [-> | ->]]; eexists; (split; [reflexivity|]);
    vm_compute; discriminate.
Qed.





(** ** The ease of a card the store has no record of *)

(** X4.  The first review of a card the manager has no record of (its
    default record carries [ease: null]) stores ease 0, whatever the
    outcome and the configuration; a following Good or Easy review then
    gives interval 0 and a due date equal to the time of that review, so
    that the card is due again at once. *)
Theorem unrecorded_card_second_review cfg now1 rnd1 now2 rnd2 d1 d2 :
  known_outcome d1 ->
  d2 = REVIEW_DIFFICULTY.GOOD \/ d2 = REVIEW_DIFFICULTY.EASY ->
  0 <= maxIntervalDays cfg ->
  ease (review cfg now1 rnd1 default_progress d1) = Num 0
  /\ num_eq (interval (review cfg now2 rnd2
                         (review cfg now1 rnd1 default_progress d1) d2)) 0
  /\ num_eq (dueDate (review cfg now2 rnd2
                        (review cfg now1 rnd1 default_progress d1) d2))
            (inject_Z now2)
  /\ isDue now2 (review cfg now2 rnd2
                   (review cfg now1 rnd1 default_progress d1) d2) = true.
Proof.
  intros Hd1 Hd2 Hmax.
  set (p1 := review cfg now1 rnd1 default_progress d1).
  assert (ease p1 = Num 0) as Hease.
  { subst p1. rewrite review_ease. unfold nextIntervalAndEase.
    change (is_zero (boundReviewCount default_progress)) with true.
    reflexivity. }
  assert (exists i, interval p1 = Num i) as [i Hi].
  { subst p1. unfold review.
    fold (boundReviewCount default_progress) (boundEase cfg default_progress)
         (boundInterval default_progress).
    unfold nextIntervalAndEase.
    change (is_zero (boundReviewCount default_progress)) with true.
    destruct (DEFAULT_INTERVALS_known d1 Hd1) as (x & -> & _).
    cbn [interval]. rewrite rounded_two_places.
    destruct (balanced_numeric cfg rnd1 (Num x) x eq_refl) as [y Hy].
    rewrite (Math_min_num _ _ y Hy). cbn. eauto. }
  assert (reviewCount p1 = Num (0 + 1)) as Hcount.
  { subst p1. now rewrite review_reviewCount. }
  assert (nextIntervalAndEase cfg (boundReviewCount p1) (boundEase cfg p1)
            (boundInterval p1) d2
          = (Num (i * (0 / 100)), snd (nextIntervalAndEase cfg
               (boundReviewCount p1) (boundEase cfg p1) (boundInterval p1) d2))
          \/ nextIntervalAndEase cfg (boundReviewCount p1) (boundEase cfg p1)
               (boundInterval p1) d2
             = (Num (i * (0 / 100) * (easyBonus cfg / 100)),
                snd (nextIntervalAndEase cfg (boundReviewCount p1)
                       (boundEase cfg p1) (boundInterval p1) d2)))
    as Hbranch.
  { assert (boundEase cfg p1 = Num 0) as He
      by (unfold boundEase; now rewrite Hease).
    destruct Hd2 as [-> | ->]; [left|right].
    - erewrite branch_good; [reflexivity| exact Hcount |reflexivity
                             | exact Hi | exact He].
    - erewrite branch_easy; [reflexivity| exact Hcount |reflexivity
                             | exact Hi | exact He]. }
  split; [exact Hease|].
  assert (exists z, z == 0
            /\ nextIntervalAndEase cfg (boundReviewCount p1) (boundEase cfg p1)
                 (boundInterval p1) d2
               = (Num z, snd (nextIntervalAndEase cfg (boundReviewCount p1)
                     (boundEase cfg p1) (boundInterval p1) d2)))
    as (z & Hz & Hb).
  { destruct Hbranch as [H | H]; eexists; (split; [|exact H]);
      div100; lra. }
  unfold review.
  fold (boundReviewCount p1) (boundEase cfg p1) (boundInterval p1).
  rewrite Hb. cbn [js_ge ToNumber].
  assert (Qle_bool 1 z = false) as -> by (apply Qle_bool_false; lra).
  rewrite andb_false_r. cbn [interval dueDate].
  rewrite rounded_two_places. cbn.
  assert (Qmin z (maxIntervalDays cfg) == 0) as Hmin.
  { destruct (Q.min_spec z (maxIntervalDays cfg)) as [[_ ->]|[? ->]]; lra. }
  split; [|split].
  - rewrite (round2_comp _ _ Hmin). reflexivity.
  - rewrite Hmin. lra.
  - unfold isDue. cbn [dueDate truthy].
    destruct (negb (Qeq_bool _ 0)); [|reflexivity].
    cbn. apply Qle_bool_iff. rewrite Hmin. lra.
Qed.

Lemma unrecorded_card_second_review_witness :
  ease (review DEFAULT_ALGORITHM_CONFIG 1000 0 default_progress "good") = Num 0
  /\ num_eq (interval (review DEFAULT_ALGORITHM_CONFIG 2000 0
                         (review DEFAULT_ALGORITHM_CONFIG 1000 0
                            default_progress "good") "good")) 0
  /\ num_eq (dueDate (review DEFAULT_ALGORITHM_CONFIG 2000 0
                        (review DEFAULT_ALGORITHM_CONFIG 1000 0
                           default_progress "good") "good"))
            (inject_Z 2000)
  /\ isDue 2000 (review DEFAULT_ALGORITHM_CONFIG 2000 0
                   (review DEFAULT_ALGORITHM_CONFIG 1000 0
                      default_progress "good") "good") = true.
Proof.
  apply (unrecorded_card_second_review DEFAULT_ALGORITHM_CONFIG
           1000 0 2000 0 "good" "good").
  - right. left. reflexivity.
  - left. reflexivity.
  - vm_compute. discriminate.
Defined.

(** ** Days until review *)

Lemma getDaysUntilReview_num now p due :
  dueDate p = Num due -> ~ due == 0 ->
  getDaysUntilReview now p
  = Num (round_half_up ((due - inject_Z now) / (24 * 60 * 60 * 1000))).
Proof.
  intros Hdue Hnz. unfold getDaysUntilReview. rewrite Hdue. cbn [truthy].
  apply Qeq_bool_false in Hnz. rewrite Hnz. reflexivity.
Qed.

Lemma day_ms : 24 * 60 * 60 * 1000 == 86400000.
Proof. reflexivity. Qed.

(** X5.  [getDaysUntilReview] is 0 for a card without due date;
    otherwise it is the whole number of days nearest to the time left
    (negative when overdue), a half day counting upwards: a card due in
    exactly [k] days reports [k], one due in 12 hours reports 1. *)
Theorem getDaysUntilReview_nearest_day now p :
  (truthy (dueDate p) = false -> getDaysUntilReview now p = Num 0)
  /\ (forall due,
        dueDate p = Num due -> ~ due == 0 ->
        exists k : Z,
          getDaysUntilReview now p = Num (inject_Z k)
          /\ inject_Z k - (1 # 2) <= (due - inject_Z now) / 86400000
          /\ (due - inject_Z now) / 86400000 < inject_Z k + (1 # 2))
  /\ (forall due (k : Z),
        dueDate p = Num due -> ~ due == 0 ->
        due == inject_Z now + inject_Z k * 86400000 ->
        num_eq (getDaysUntilReview now p) (inject_Z k))
  /\ (forall due,
        dueDate p = Num due -> ~ due == 0 ->
        due == inject_Z now + 43200000 ->
        num_eq (getDaysUntilReview now p) 1).
Proof.
  split; [|split; [|split]].
  - intros H. unfold getDaysUntilReview. now rewrite H.
  - intros due Hdue Hnz. rewrite (getDaysUntilReview_num now p due Hdue Hnz).
    eexists. split; [reflexivity|].
    set (y := (due - inject_Z now) / (24 * 60 * 60 * 1000)).
    assert ((due - inject_Z now) / 86400000 == y) as ->
      by (subst y; now rewrite day_ms).
    pose proof (Qfloor_le (y + (1 # 2))) as Hle.
    pose proof (Qlt_floor (y + (1 # 2))) as Hlt.
    rewrite inject_Z_plus in Hlt. change (inject_Z 1) with 1 in Hlt.
    split; lra.
  - intros due k Hdue Hnz Hk.
    rewrite (getDaysUntilReview_num now p due Hdue Hnz). cbn [num_eq].
    apply round_half_up_int. rewrite Hk, day_ms. field.
  - intros due Hdue Hnz Hhalf.
    rewrite (getDaysUntilReview_num now p due Hdue Hnz). cbn [num_eq].
    assert ((due - inject_Z now) / (24 * 60 * 60 * 1000) == 1 # 2) as ->
      by (rewrite Hhalf, day_ms; field).
    reflexivity.
Qed.

Lemma getDaysUntilReview_nearest_day_witness :
  num_eq (getDaysUntilReview 1000 (due_at (1000 + 3 * 86400000))) 3
  /\ num_eq (getDaysUntilReview 1000 (due_at (1000 + 43200000))) 1.
Proof.
  destruct (getDaysUntilReview_nearest_day 1000
              (due_at (1000 + 3 * 86400000))) as (_ & _ & Hk & _).
  destruct (getDaysUntilReview_nearest_day 1000
              (due_at (1000 + 43200000))) as (_ & _ & _ & Hhalf).
  split.
  - apply (Hk (1000 + 3 * 86400000) 3%Z).
    + reflexivity.
    + vm_compute. discriminate.
    + reflexivity.
  - apply (Hhalf (1000 + 43200000)).
    + reflexivity.
    + vm_compute. discriminate.
    + reflexivity.
Defined.

(** ** Reset *)

(** X6.  A record that went through [resetFlashcard] is due at any time,
    reports 0 days until review, and is reviewed as a first review:
    [reviewCount] becomes 1 and the stored ease is the configured
    [baseEase], rounded (where a card without record gets ease 0). *)
Theorem resetFlashcard_first_review this alg now rnd p d :
  first_review (resetFlashcard this p)
  /\ (forall t, isDue t (resetFlashcard this p) = true)
  /\ (forall t, getDaysUntilReview t (resetFlashcard this p) = Num 0)
  /\ reviewCount (fst (calculateReview alg now rnd
                         (resetFlashcard this p) d)) = Num (0 + 1)
  /\ ease (fst (calculateReview alg now rnd (resetFlashcard this p) d))
     = Num (round_half_up (baseEase (config this)))
  /\ nextIntervalAndEase (activeConfig alg)
       (boundReviewCount (resetFlashcard this p))
       (boundEase (activeConfig alg) (resetFlashcard this p))
       (boundInterval (resetFlashcard this p)) d
     = (DEFAULT_INTERVALS d, Num (baseEase (config this))).
Proof.
  split; [reflexivity|]. split; [reflexivity|]. split; [reflexivity|].
  rewrite calculateReview_review, review_reviewCount, review_ease.
  repeat split.
Qed.

(** ** The configuration *)

Lemma spread_config_whole c c' : spread_config c (whole c') = c'.
Proof. now destruct c'. Qed.

(** X7.  A configuration update is merged key by key into the current
    configuration and, when the write succeeds, is what an algorithm
    object that has not loaded its configuration yet gets from
    [loadConfig]; when the write fails such an object gets what was
    stored before (the defaults if nothing was).  Once loaded, the
    configuration is not read from the storage again. *)
Theorem updateConfig_loadConfig this u st other :
  configLoaded other = false ->
  config (fst (updateConfig this u st)) = spread_config (config this) u
  /\ (configWritable st = true ->
      fst (loadConfig other (snd (updateConfig this u st)))
      = spread_config (config this) u)
  /\ (configWritable st = false ->
      fst (loadConfig other (snd (updateConfig this u st)))
      = fst (loadConfig other st))
  /\ (storedConfig st = None ->
      fst (loadConfig other st) = DEFAULT_ALGORITHM_CONFIG)
  /\ (forall st',
        loadConfig (snd (loadConfig other st)) st'
        = (fst (loadConfig other st), snd (loadConfig other st))).
Proof.
  intros Hother. split; [reflexivity|]. split; [|split; [|split]].
  - intros Hw. unfold loadConfig, updateConfig.
    rewrite Hother. cbn. unfold storage_saveAlgorithmConfig. rewrite Hw.
    cbn. apply spread_config_whole.
  - intros Hw. unfold updateConfig, storage_saveAlgorithmConfig.
    now rewrite Hw.
  - intros Hnone. unfold loadConfig, storage_getAlgorithmConfig.
    now rewrite Hother, Hnone.
  - intros st'. unfold loadConfig. now rewrite Hother.
Qed.

Lemma updateConfig_loadConfig_witness :
  fst (loadConfig new_algorithm
         (snd (updateConfig new_algorithm longer_cap empty_config_storage)))
  = {| baseEase := 250; intervalChangeHard := 50; easyBonus := 130;
       enableLoadBalancer := false; maxIntervalDays := 365;
       maxLinkContribution := 50 |}.
Proof.
  exact (proj1 (proj2 (updateConfig_loadConfig new_algorithm longer_cap
                         empty_config_storage new_algorithm eq_refl))
           eq_refl).
Defined.

(** X8.  [updateConfig] does not mark the configuration as loaded: an
    update made on an algorithm object that has not loaded its
    configuration is ignored by the next [calculateReview], which works
    with the defaults and puts them back into the object.  The update
    survives in the storage (when writable) and comes back with
    [ensureConfigLoaded]; on a loaded object it takes effect at once. *)
Theorem update_before_load_ignored this u st now rnd p d :
  (configLoaded this = false ->
   fst (calculateReview (fst (updateConfig this u st)) now rnd p d)
   = review DEFAULT_ALGORITHM_CONFIG now rnd p d
   /\ config (snd (calculateReview (fst (updateConfig this u st))
                     now rnd p d))
      = DEFAULT_ALGORITHM_CONFIG
   /\ (configWritable st = true ->
       config (ensureConfigLoaded
                 (snd (calculateReview (fst (updateConfig this u st))
                         now rnd p d))
                 (snd (updateConfig this u st)))
       = spread_config (config this) u))
  /\ (configLoaded this = true ->
      fst (calculateReview (fst (updateConfig this u st)) now rnd p d)
      = review (spread_config (config this) u) now rnd p d).
Proof.
  split.
  - intros Hnot. split; [|split].
    + rewrite calculateReview_review. unfold activeConfig, updateConfig.
      cbn. now rewrite Hnot.
    + unfold calculateReview, updateConfig. cbn. now rewrite Hnot.
    + intros Hw. unfold ensureConfigLoaded, calculateReview, updateConfig,
        loadConfig, storage_saveAlgorithmConfig.
      cbn. rewrite Hnot, Hw. cbn. apply spread_config_whole.
  - intros Hloaded. rewrite calculateReview_review.
    unfold activeConfig, updateConfig. cbn. now rewrite Hloaded.
Qed.

Lemma update_before_load_ignored_witness :
  fst (calculateReview
         (fst (updateConfig new_algorithm longer_cap empty_config_storage))
         0 0 default_progress "good")
  = review DEFAULT_ALGORITHM_CONFIG 0 0 default_progress "good".
Proof.
  exact (proj1 (proj1 (update_before_load_ignored new_algorithm longer_cap
                         empty_config_storage 0 0 default_progress "good")
                  eq_refl)).
Defined.

(** ** No review is scheduled in the past *)

Lemma balanced_nonneg cfg rnd x :
  0 <= rnd -> rnd < 1 -> 0 <= x ->
  exists y,
    (if enableLoadBalancer cfg && js_ge (Num x) (Num 1)
     then applyLoadBalancer rnd (Num x) else Num x) = Num y
    /\ 0 <= y.
Proof.
  intros H0 H1 Hx.
  destruct (enableLoadBalancer cfg && js_ge (Num x) (Num 1)); [|eauto].
  destruct (Qlt_le_dec x 1) as [Hlt | Hge].
  - rewrite (proj1 (applyLoadBalancer_range rnd x H0 H1) Hlt). eauto.
  - destruct (proj2 (applyLoadBalancer_range rnd x H0 H1) Hge)
      as (y & -> & Hlow & _).
    exists y. split; [reflexivity|]. lra.
Qed.

Lemma branch_nonneg cfg n e i d :
  0 <= e -> 0 <= i ->
  0 <= intervalChangeHard cfg -> 0 <= easyBonus cfg ->
  (n == 0 -> known_outcome d) ->
  exists v e',
    nextIntervalAndEase cfg (Num n) (Num e) (Num i) d = (Num v, e')
    /\ 0 <= v.
Proof.
  intros He Hi Hhard Hbonus Hd. unfold nextIntervalAndEase.
  cbn [is_zero]. destruct (Qeq_bool n 0) eqn:Hn.
  - apply Qeq_bool_iff in Hn.
    destruct (DEFAULT_INTERVALS_known d (Hd Hn)) as (x & -> & Hx).
    exists x. eexists. split; [reflexivity|]. lra.
  - destruct (String.eqb d REVIEW_DIFFICULTY.HARD).
    { eexists _, _. split; [reflexivity|]. div100. nra. }
    destruct (String.eqb d REVIEW_DIFFICULTY.GOOD).
    { eexists _, _. split; [reflexivity|]. div100. nra. }
    destruct (String.eqb d REVIEW_DIFFICULTY.EASY).
    { eexists _, _. split; [reflexivity|]. div100.
      assert (0 <= i * (e * (1 # 100))) by nra. nra. }
    eexists _, _. split; [reflexivity|]. exact Hi.
Qed.

(** X9.  Under a configuration without negative values, a review of a
    record with non-negative interval and ease never schedules in the
    past: for a value of [Math.random()] in [0, 1) the stored interval
    is a non-negative number and the due date is a number not before the
    time of the review.  (At a first review the outcome has to be one of
    the three known ones; a later review may carry any outcome.) *)
Theorem due_not_before_review cfg now rnd p d n e i :
  boundReviewCount p = Num n ->
  boundEase cfg p = Num e ->
  boundInterval p = Num i ->
  0 <= e -> 0 <= i ->
  0 <= intervalChangeHard cfg -> 0 <= easyBonus cfg ->
  0 <= maxIntervalDays cfg ->
  0 <= rnd -> rnd < 1 ->
  (n == 0 -> known_outcome d) ->
  exists x due,
    interval (review cfg now rnd p d) = Num x /\ 0 <= x
    /\ dueDate (review cfg now rnd p d) = Num due /\ inject_Z now <= due.
Proof.
  intros Hn He Hi He0 Hi0 Hhard Hbonus Hmax H0 H1 Hd. unfold review.
  fold (boundReviewCount p) (boundEase cfg p) (boundInterval p).
  rewrite Hn, He, Hi.
  destruct (branch_nonneg cfg n e i d He0 Hi0 Hhard Hbonus Hd)
    as (v & e' & -> & Hv).
  destruct (balanced_nonneg cfg rnd v H0 H1 Hv) as (y & -> & Hy).
  cbn [interval dueDate]. rewrite rounded_two_places.
  rewrite (Math_min_num (Num y) _ y eq_refl). cbn [ToNumber].
  assert (0 <= Qmin y (maxIntervalDays cfg)) as Hmin
    by (destruct (Q.min_spec y (maxIntervalDays cfg)) as [[_ ->]|[_ ->]]; lra).
  eexists _, _. split; [reflexivity|]. split.
  { apply (Qle_trans _ (round2 0)); [vm_compute; discriminate|].
    now apply round2_mono. }
  split; [reflexivity|]. lra.
Qed.

Lemma due_not_before_review_witness :
  exists x due,
    interval (review DEFAULT_ALGORITHM_CONFIG 2000 (1 # 2) (due_at 1000) "easy")
    = Num x /\ 0 <= x
    /\ dueDate (review DEFAULT_ALGORITHM_CONFIG 2000 (1 # 2) (due_at 1000)
                  "easy") = Num due
    /\ inject_Z 2000 <= due.
Proof.
  apply (due_not_before_review DEFAULT_ALGORITHM_CONFIG 2000 (1 # 2)
           (due_at 1000) "easy" 1 250 1).
  - reflexivity.
  - reflexivity.
  - reflexivity.
  - vm_compute. discriminate.
  - vm_compute. discriminate.
  - vm_compute. discriminate.
  - vm_compute. discriminate.
  - vm_compute. discriminate.
  - vm_compute. discriminate.
  - reflexivity.
  - vm_compute. discriminate.
Defined.

(** * Further properties of the scheduler *)

(** ** Statistics *)

Lemma count_cons {A : Type} (f : A -> bool) x l :
  count f (x :: l) = ((if f x then 1 else 0) + count f l)%nat.
Proof. unfold count. cbn. now destruct (f x). Qed.

Lemma count_le {A : Type} (f : A -> bool) l : (count f l <= length l)%nat.
Proof.
  induction l as [|x l IH]; [reflexivity|].
  rewrite count_cons. cbn [length]. destruct (f x); lia.
Qed.

Lemma count_disjoint {A : Type} (f g : A -> bool) l :
  (forall x, f x && g x = false) ->
  (count f l + count g l <= length l)%nat.
Proof.
  intros H. induction l as [|x l IH]; [reflexivity|].
  rewrite !count_cons. cbn [length]. specialize (H x).
  destruct (f x), (g x); try discriminate; lia.
Qed.

Section Counting.
Variables (l : list Flashcard) (ps : ProgressState)
          (alg : SpacedRepetitionAlgorithm) (st : StorageManager)
          (q : list string) (now : Z).
Hypothesis Hq : repeatLater ps = Some q.

Lemma run_count_flashcard_exact dueCount newCount laterCount fc :
  count_flashcard now (Some ps) (dueCount, newCount, laterCount) fc
    (loaded l ps alg, st)
  = (Ret ((if counts_due now ps fc then S dueCount else dueCount),
          (if counts_new ps fc then S newCount else newCount),
          (if counts_later q fc then S laterCount else laterCount)),
     (loaded l ps alg, st)).
Proof.
  unfold count_flashcard.
  erewrite run_bind; [|apply run_getFlashcardProgress].
  unfold counts_due, counts_new, counts_later. rewrite Hq.
  destruct (is_zero _), (isDue now _), (includes q (id fc)); reflexivity.
Qed.

Lemma run_forEach_exact l' dueCount newCount laterCount :
  forEach (count_flashcard now (Some ps)) l' (dueCount, newCount, laterCount)
    (loaded l ps alg, st)
  = (Ret ((dueCount + count (counts_due now ps) l')%nat,
          (newCount + count (counts_new ps) l')%nat,
          (laterCount + count (counts_later q) l')%nat),
     (loaded l ps alg, st)).
Proof.
  revert dueCount newCount laterCount.
  induction l' as [|fc l' IH]; intros dueCount newCount laterCount.
  - cbn. unfold count. cbn. now rewrite !Nat.add_0_r.
  - cbn [forEach].
    erewrite run_bind; [|apply run_count_flashcard_exact].
    rewrite IH, !count_cons.
    assert (forall (b : bool) (n m : nat),
              ((if b then S n else n) + m = n + ((if b then 1 else 0) + m))%nat)
      as Hshift by (intros [] n m; lia).
    rewrite (Hshift _ dueCount), (Hshift _ newCount), (Hshift _ laterCount).
    reflexivity.
Qed.

Lemma run_getSchedulingStats_exact :
  getSchedulingStats now (loaded l ps alg, st)
  = (Ret {| due := count (counts_due now ps) l;
            new := count (counts_new ps) l;
            later := count (counts_later q) l;
            total := length l |},
     (loaded l ps alg, st)).
Proof.
  unfold getSchedulingStats.
  erewrite run_bind; [|reflexivity]. cbv beta.
  cbn [fst loaded flashcardManager algorithm progress].
  erewrite run_bind; [|reflexivity].
  erewrite run_bind; [|apply run_forEach_exact]. reflexivity.
Qed.
End Counting.

(** X10.  On a loaded state [getSchedulingStats] changes nothing and
    reports: as new the cards whose [reviewCount] is 0, as due the other
    cards for which [isDue] holds, as later the cards whose id is on the
    [repeatLater] queue, and as total the size of the catalog; so new and
    due together, and later, never exceed the total. *)
Theorem getSchedulingStats_counts l ps alg st q now :
  repeatLater ps = Some q ->
  exists stats,
    getSchedulingStats now (loaded l ps alg, st)
    = (Ret stats, (loaded l ps alg, st))
    /\ new stats = count (counts_new ps) l
    /\ due stats = count (counts_due now ps) l
    /\ later stats = count (counts_later q) l
    /\ total stats = length l
    /\ (due stats + new stats <= total stats)%nat
    /\ (later stats <= total stats)%nat.
Proof.
  intros Hq. eexists. split; [apply run_getSchedulingStats_exact, Hq|].
  cbn [due new later total]. repeat split.
  - rewrite Nat.add_comm. apply count_disjoint.
    intros fc. unfold counts_due. now destruct (counts_new ps fc).
  - apply count_le.
Qed.

Lemma getSchedulingStats_counts_witness :
  exists stats,
    getSchedulingStats 2000
      (loaded [fc1; fc2; fc3] two_reviewed new_algorithm, empty_storage)
    = (Ret stats,
       (loaded [fc1; fc2; fc3] two_reviewed new_algorithm, empty_storage))
    /\ new stats = 1%nat /\ due stats = 1%nat /\ later stats = 0%nat
    /\ total stats = 3%nat.
Proof.
  destruct (getSchedulingStats_counts [fc1; fc2; fc3] two_reviewed
              new_algorithm empty_storage [] 2000 eq_refl)
    as (stats & Hrun & Hnew & Hdue & Hlater & Htotal & _).
  exists stats. split; [exact Hrun|].
  rewrite Hnew, Hdue, Hlater, Htotal. vm_compute. auto.
Defined.

(** ** The due tier *)

Lemma SortCompare_dated a b :
  dated a -> dated b ->
  SortCompare compareDue a b = due_number a - due_number b.
Proof.
  intros (da & Ha & Hda) (db & Hb & Hdb).
  rewrite (SortCompare_by_due a b da db Ha Hb Hda Hdb).
  unfold due_number. now rewrite Ha, Hb.
Qed.

Lemma js_sort_earliest_first lst :
  Forall dated lst -> lst <> [] ->
  exists h, head (js_sort compareDue lst) = Some h /\ In h lst
            /\ Forall (fun y => due_number h <= due_number y) lst.
Proof.
  induction lst as [|x lst IH]; intros Hall Hne; [contradiction|].
  inversion Hall as [|? ? Hx Hrest]; subst. cbn [js_sort].
  destruct lst as [|x' lst'].
  - exists x. cbn. repeat split; [now left|].
    constructor; [lra|constructor].
  - destruct (IH Hrest ltac:(discriminate)) as (h & Hh & Hin & Hmin).
    destruct (js_sort compareDue (x' :: lst')) as [|y s] eqn:Hs;
      [discriminate|].
    injection Hh as ->. cbn [sort_insert].
    assert (dated h) as Hdh
      by exact (proj1 (List.Forall_forall _ _) Hrest h Hin).
    rewrite (SortCompare_dated x h Hx Hdh).
    destruct (Qle_bool (due_number x - due_number h) 0) eqn:Hcmp.
    + apply Qle_bool_iff in Hcmp. exists x. cbn.
      split; [reflexivity|]. split; [now left|].
      constructor; [lra|].
      eapply List.Forall_impl; [|exact Hmin]. cbn. intros; lra.
    + apply Qle_bool_false in Hcmp. exists h. cbn.
      split; [reflexivity|]. split; [now right|].
      constructor; [lra|exact Hmin].
Qed.

Lemma js_sort_never_reviewed_stable lst :
  Forall never_reviewed lst ->
  head (js_sort compareDue lst) = head lst.
Proof.
  intros Hall. destruct lst as [|x lst]; [reflexivity|].
  inversion Hall as [|? ? Hx Hrest]; subst. cbn [js_sort head].
  apply never_reviewed_first; [exact Hx|].
  intros y Hy. left. apply head_js_sort_In in Hy.
  exact (proj1 (List.Forall_forall _ _) Hrest y Hy).
Qed.

(** X11.  When every card of the due tier has a due date, the card
    [getNextFlashcard] returns is one of the tier with the earliest due
    date of all. *)
Theorem due_tier_earliest_first l ps alg st now rnd :
  Forall dated (due_candidates l ps now) ->
  due_candidates l ps now <> [] ->
  exists h,
    getNextFlashcard now rnd (loaded l ps alg, st)
    = (Ret (Some h), (loaded l ps alg, st))
    /\ In h (due_candidates l ps now)
    /\ Forall (fun y => due_number h <= due_number y)
              (due_candidates l ps now).
Proof.
  intros Hall Hne.
  destruct (js_sort_earliest_first _ Hall Hne) as (h & Hh & Hin & Hmin).
  exists h. split; [now apply run_getNextFlashcard_due|]. now split.
Qed.

Lemma due_tier_earliest_first_witness :
  exists h,
    getNextFlashcard 2000 0
      (loaded [fc1; fc2; fc3] three_due new_algorithm, empty_storage)
    = (Ret (Some h),
       (loaded [fc1; fc2; fc3] three_due new_algorithm, empty_storage))
    /\ In h (due_candidates [fc1; fc2; fc3] three_due 2000)
    /\ Forall (fun y => due_number h <= due_number y)
              (due_candidates [fc1; fc2; fc3] three_due 2000).
Proof.
  apply due_tier_earliest_first.
  - vm_compute. repeat constructor; eexists; (split; [reflexivity|]);
      discriminate.
  - vm_compute. discriminate.
Defined.

(** X12.  When every card of the catalog was never reviewed (no due
    date, [reviewCount] 0), as after an installation or a reset,
    [getNextFlashcard] returns the first card of the catalog: all cards
    are in the due tier, which keeps the catalog order among them, and
    the random choice of the unshown tier is not reached. *)
Theorem never_reviewed_catalog_order fc l ps alg st now rnd :
  Forall (fun c => never_reviewed (with_progress ps c)) (fc :: l) ->
  getNextFlashcard now rnd (loaded (fc :: l) ps alg, st)
  = (Ret (Some (fc, progress_of ps (id fc))), (loaded (fc :: l) ps alg, st)).
Proof.
  intros Hall. apply run_getNextFlashcard_due.
  assert (due_candidates (fc :: l) ps now = map (with_progress ps) (fc :: l))
    as ->.
  { unfold due_candidates. apply forallb_filter_id.
    apply forallb_forall. intros x Hx. apply in_map_iff in Hx.
    destruct Hx as (c & <- & Hc).
    destruct (proj1 (List.Forall_forall _ _) Hall c Hc) as [Hdue _].
    cbn [with_progress snd] in *. now rewrite Hdue. }
  rewrite js_sort_never_reviewed_stable; [reflexivity|].
  apply List.Forall_forall. intros x Hx. apply in_map_iff in Hx.
  destruct Hx as (c & <- & Hc).
  exact (proj1 (List.Forall_forall _ _) Hall c Hc).
Qed.

Lemma never_reviewed_catalog_order_witness :
  getNextFlashcard 2000 (9 # 10)
    (loaded [fc1; fc2; fc3] empty_progress_state new_algorithm, empty_storage)
  = (Ret (Some (fc1, progress_of empty_progress_state (id fc1))),
     (loaded [fc1; fc2; fc3] empty_progress_state new_algorithm,
      empty_storage)).
Proof.
  apply never_reviewed_catalog_order.
  repeat constructor.
Defined.

(** ** The unshown tier and the later tier *)


Lemma find_id_In l i :
  In i (map id l) ->
  exists fc, List.find (fun fc => String.eqb (id fc) i) l = Some fc
             /\ In fc l /\ id fc = i.
Proof.
  intros Hin. apply in_map_iff in Hin. destruct Hin as (c & Hc & Hin).
  destruct (List.find (fun fc => String.eqb (id fc) i) l) as [fc|] eqn:Hf.
  - exists fc. apply find_some in Hf. destruct Hf as [Hfc Heq].
    apply String.eqb_eq in Heq. auto.
  - apply (find_none _ _ Hf) in Hin. cbn in Hin.
    rewrite Hc, String.eqb_refl in Hin. discriminate.
Qed.

Section NothingDue.
Variables (l : list Flashcard) (ps : ProgressState)
          (alg : SpacedRepetitionAlgorithm) (st : StorageManager)
          (now : Z) (rnd : Q).
Hypothesis Hnone : due_candidates l ps now = [].

Lemma run_getNextFlashcard_not_due :
  getNextFlashcard now rnd (loaded l ps alg, st)
  = (unshownFlashcard ← getUnshownFlashcard rnd;
     match unshownFlashcard with
     | Some r => ret (Some r)
     | None =>
         laterFlashcard ← getLaterFlashcard;
         match laterFlashcard with
         | Some r => ret (Some r)
         | None => ret None
         end
     end) (loaded l ps alg, st).
Proof.
  unfold getNextFlashcard.
  erewrite run_bind; [|reflexivity]. cbv beta.
  change (negb (dependencies_set (fst (loaded l ps alg, st)))) with false.
  cbv iota.
  erewrite run_bind; [|apply run_getDueFlashcard]. now rewrite Hnone.
Qed.

Lemma run_getUnshownFlashcard_exact :
  getUnshownFlashcard rnd (loaded l ps alg, st)
  = (Ret (match unshown_ids l ps
                  !! random_index rnd (length (unshown_ids l ps)) with
          | Some i =>
              match List.find (fun fc => String.eqb (id fc) i) l with
              | Some fc => Some (fc, progress_of ps i)
              | None => None
              end
          | None => None
          end),
     (loaded l ps alg, st)).
Proof.
  unfold getUnshownFlashcard.
  erewrite run_bind; [|reflexivity]. cbv beta.
  change (negb (manager_set (fst (loaded l ps alg, st)))) with false.
  cbv iota.
  erewrite run_bind; [|apply run_getUnshownFlashcards].
  fold (unshown_ids l ps).
  destruct (unshown_ids l ps) as [|u us] eqn:Hu; [reflexivity|].
  destruct ((u :: us) !! _) as [selectedId|]; [|reflexivity].
  erewrite run_bind; [|apply run_getFlashcardById].
  destruct (List.find _ l) as [fc|]; [|reflexivity].
  erewrite run_bind; [|apply run_getFlashcardProgress]. reflexivity.
Qed.

Lemma run_getLaterFlashcard_exact q :
  repeatLater ps = Some q ->
  getLaterFlashcard (loaded l ps alg, st)
  = (Ret (match q with
          | [] => None
          | i :: _ =>
              match List.find (fun fc => String.eqb (id fc) i) l with
              | Some fc => Some (fc, progress_of ps i)
              | None => None
              end
          end),
     (loaded l ps alg, st)).
Proof.
  intros Hq. unfold getLaterFlashcard.
  erewrite run_bind; [|reflexivity]. cbv beta.
  cbn [fst loaded flashcardManager progress]. rewrite Hq.
  destruct q as [|i q']; [reflexivity|].
  erewrite run_bind; [|apply run_getFlashcardById].
  destruct (List.find _ l) as [fc|]; [|reflexivity].
  erewrite run_bind; [|apply run_getFlashcardProgress]. reflexivity.
Qed.
End NothingDue.



(** X14.  When no card is due and every card is marked completed,
    [getNextFlashcard] looks at the head of the [repeatLater] queue only:
    it returns the catalog card with that id, null when the catalog has
    no such card (whatever stands behind it on the queue), and null when
    the queue is empty; it changes nothing. *)
Theorem later_tier_head l ps alg st now rnd q :
  due_candidates l ps now = [] ->
  unshown_ids l ps = [] ->
  repeatLater ps = Some q ->
  (q = [] ->
   getNextFlashcard now rnd (loaded l ps alg, st)
   = (Ret None, (loaded l ps alg, st)))
  /\ (forall i rest,
        q = i :: rest -> In i (map id l) ->
        exists fc,
          getNextFlashcard now rnd (loaded l ps alg, st)
          = (Ret (Some (fc, progress_of ps i)), (loaded l ps alg, st))
          /\ In fc l /\ id fc = i)
  /\ (forall i rest,
        q = i :: rest -> ~ In i (map id l) ->
        getNextFlashcard now rnd (loaded l ps alg, st)
        = (Ret None, (loaded l ps alg, st))).
Proof.
  intros Hnone Hshown Hq.
  assert (getNextFlashcard now rnd (loaded l ps alg, st)
          = (Ret (match q with
                  | [] => None
                  | i :: _ =>
                      match List.find (fun fc => String.eqb (id fc) i) l with
                      | Some fc => Some (fc, progress_of ps i)
                      | None => None
                      end
                  end), (loaded l ps alg, st))) as Hrun.
  { rewrite (run_getNextFlashcard_not_due l ps alg st now rnd Hnone).
    erewrite run_bind; [|apply run_getUnshownFlashcard_exact].
    rewrite Hshown. cbn [length lookup].
    change ([] !! random_index rnd 0) with (@None string).
    cbv iota.
    erewrite run_bind; [|apply (run_getLaterFlashcard_exact _ _ _ _ q Hq)].
    destruct q as [|i q']; [reflexivity|].
    now destruct (List.find _ l). }
  rewrite Hrun. split; [|split].
  - now intros ->.
  - intros i rest -> Hin.
    destruct (find_id_In l i Hin) as (fc & Hfind & Hfc & Hid).
    exists fc. now rewrite Hfind.
  - intros i rest -> Hnot.
    destruct (List.find (fun fc => String.eqb (id fc) i) l) as [fc|] eqn:Hf;
      [|reflexivity].
    apply find_some in Hf. destruct Hf as [Hfc Heq].
    apply String.eqb_eq in Heq. exfalso. apply Hnot.
    apply in_map_iff. eauto.
Qed.

Lemma later_tier_head_witness :
  getNextFlashcard 2000 0
    (loaded [fc1; fc2; fc3] stale_queue new_algorithm, empty_storage)
  = (Ret None,
     (loaded [fc1; fc2; fc3] stale_queue new_algorithm, empty_storage)).
Proof.
  destruct (later_tier_head [fc1; fc2; fc3] stale_queue new_algorithm
              empty_storage 2000 0 ["fc-9"; "fc-2"])
    as (_ & _ & Hstale).
  - vm_compute. reflexivity.
  - vm_compute. reflexivity.
  - reflexivity.
  - apply (Hstale "fc-9" ["fc-2"] eq_refl).
    cbn. intuition discriminate.
Defined.

(** ** What [getNextFlashcard] returns *)

Lemma sort_insert_not_nil {A : Type} (cmp : A -> A -> jsval) x l :
  sort_insert cmp x l <> [].
Proof. destruct l; cbn; [discriminate|]. now destruct (Qle_bool _ _). Qed.

Lemma head_js_sort_None {A : Type} (cmp : A -> A -> jsval) l :
  head (js_sort cmp l) = None -> l = [].
Proof.
  destruct l as [|x l]; [reflexivity|]. cbn [js_sort].
  pose proof (sort_insert_not_nil cmp x (js_sort cmp l)).
  now destruct (sort_insert cmp x (js_sort cmp l)).
Qed.

Lemma run_getNextFlashcard_exact l ps alg st q now rnd :
  repeatLater ps = Some q ->
  getNextFlashcard now rnd (loaded l ps alg, st)
  = (Ret (first_of (due_pick l ps now)
            (first_of (unshown_pick l ps rnd) (later_pick l ps q))),
     (loaded l ps alg, st)).
Proof.
  intros Hq. unfold due_pick.
  destruct (head (js_sort compareDue (due_candidates l ps now)))
    as [r|] eqn:Hdue.
  { now apply run_getNextFlashcard_due. }
  apply head_js_sort_None in Hdue.
  rewrite (run_getNextFlashcard_not_due l ps alg st now rnd Hdue).
  erewrite run_bind; [|apply run_getUnshownFlashcard_exact].
  fold (unshown_pick l ps rnd).
  change (match unshown_ids l ps
                  !! random_index rnd (length (unshown_ids l ps)) with
          | Some i =>
              match List.find (fun fc => String.eqb (id fc) i) l with
              | Some fc => Some (fc, progress_of ps i)
              | None => None
              end
          | None => None
          end) with (unshown_pick l ps rnd).
  destruct (unshown_pick l ps rnd) as [r|]; [reflexivity|].
  erewrite run_bind; [|apply (run_getLaterFlashcard_exact _ _ _ _ q Hq)].
  change (match q with
          | [] => None
          | i :: _ =>
              match List.find (fun fc => String.eqb (id fc) i) l with
              | Some fc => Some (fc, progress_of ps i)
              | None => None
              end
          end) with (later_pick l ps q).
  cbn [first_of]. now destruct (later_pick l ps q).
Qed.

Lemma card_with_id_Some l ps i fc p :
  card_with_id l ps i = Some (fc, p) ->
  In fc l /\ id fc = i /\ p = progress_of ps (id fc).
Proof.
  unfold card_with_id.
  destruct (List.find _ l) as [c|] eqn:Hf; [|discriminate].
  intros [= <- <-]. apply find_some in Hf. destruct Hf as [Hc Heq].
  apply String.eqb_eq in Heq. subst i. auto.
Qed.

Lemma due_pick_Some l ps now fc p :
  due_pick l ps now = Some (fc, p) ->
  In fc l /\ p = progress_of ps (id fc)
  /\ (negb (truthy (dueDate p)) || isDue now p = true).
Proof.
  intros H. apply head_js_sort_In in H.
  unfold due_candidates in H. apply filter_In in H.
  destruct H as [Hin Hpass]. apply in_map_iff in Hin.
  destruct Hin as (c & [= <- <-] & Hc). auto.
Qed.

Lemma unshown_pick_Some l ps rnd fc p :
  unshown_pick l ps rnd = Some (fc, p) ->
  In fc l /\ p = progress_of ps (id fc) /\ ~ In (id fc) (completed ps).
Proof.
  unfold unshown_pick.
  destruct (unshown_ids l ps !! _) as [i|] eqn:Hi; [|discriminate].
  intros H. apply card_with_id_Some in H. destruct H as (Hfc & <- & Hp).
  split; [exact Hfc|]. split; [exact Hp|].
  assert (In (id fc) (unshown_ids l ps)) as Hin.
  { apply list_elem_of_In. eapply list_elem_of_lookup_2. exact Hi. }
  unfold unshown_ids in Hin. apply filter_In in Hin.
  destruct Hin as [_ Hnot]. intros Hdone.
  apply includes_In in Hdone. now rewrite Hdone in Hnot.
Qed.

Lemma later_pick_Some l ps q fc p :
  later_pick l ps q = Some (fc, p) ->
  In fc l /\ p = progress_of ps (id fc) /\ head q = Some (id fc).
Proof.
  destruct q as [|i q']; [discriminate|]. cbn [later_pick head].
  intros H. apply card_with_id_Some in H. destruct H as (Hfc & <- & Hp).
  auto.
Qed.

(** X15.  On a loaded state [getNextFlashcard] returns and changes
    nothing, neither in the manager nor in the storage; a card it
    returns is a card of the catalog, handed over with the progress
    record stored under its id (the default record when there is
    none), and is due, or not completed, or at the head of the
    [repeatLater] queue.  [hasFlashcardsAvailable] tells whether it
    returns a card. *)
Theorem getNextFlashcard_from_catalog l ps alg st q now rnd :
  repeatLater ps = Some q ->
  exists r,
    getNextFlashcard now rnd (loaded l ps alg, st)
    = (Ret r, (loaded l ps alg, st))
    /\ hasFlashcardsAvailable now rnd (loaded l ps alg, st)
       = (Ret (match r with Some _ => true | None => false end),
          (loaded l ps alg, st))
    /\ forall fc p,
         r = Some (fc, p) ->
         In fc l /\ p = progress_of ps (id fc)
         /\ (negb (truthy (dueDate p)) || isDue now p = true
             \/ ~ In (id fc) (completed ps)
             \/ head q = Some (id fc)).
Proof.
  intros Hq. eexists. split; [apply (run_getNextFlashcard_exact _ _ _ _ q _ _ Hq)|].
  split.
  - unfold hasFlashcardsAvailable.
    erewrite run_bind; [|reflexivity]. cbv beta.
    change (negb (dependencies_set (fst (loaded l ps alg, st)))) with false.
    cbv iota.
    erewrite run_bind; [|apply (run_getNextFlashcard_exact _ _ _ _ q _ _ Hq)].
    reflexivity.
  - intros fc p Hr.
    destruct (due_pick l ps now) as [r1|] eqn:H1; cbn [first_of] in Hr.
    { rewrite Hr in H1. apply due_pick_Some in H1.
      destruct H1 as (? & ? & ?). auto. }
    destruct (unshown_pick l ps rnd) as [r2|] eqn:H2; cbn [first_of] in Hr.
    { rewrite Hr in H2. apply unshown_pick_Some in H2.
      destruct H2 as (? & ? & ?). auto. }
    apply later_pick_Some in Hr. destruct Hr as (? & ? & ?). auto.
Qed.

Lemma getNextFlashcard_from_catalog_witness :
  exists r,
    getNextFlashcard 2000 0
      (loaded [fc1; fc2; fc3] two_reviewed new_algorithm, empty_storage)
    = (Ret r,
       (loaded [fc1; fc2; fc3] two_reviewed new_algorithm, empty_storage))
    /\ hasFlashcardsAvailable 2000 0
         (loaded [fc1; fc2; fc3] two_reviewed new_algorithm, empty_storage)
       = (Ret (match r with Some _ => true | None => false end),
          (loaded [fc1; fc2; fc3] two_reviewed new_algorithm, empty_storage)).
Proof.
  destruct (getNextFlashcard_from_catalog [fc1; fc2; fc3] two_reviewed
              new_algorithm empty_storage [] 2000 0 eq_refl)
    as (r & Hrun & Hhas & _).
  exists r. split; assumption.
Defined.

(** ** After a review *)

Lemma progress_of_reviewed_state ps q i upd done j :
  progress_of (reviewed_state ps q i upd done) j
  = if String.eqb j i then upd else progress_of ps j.
Proof.
  unfold progress_of, reviewed_state. cbn [flashcardData].
  destruct (String.eqb j i) eqn:Hj.
  - apply String.eqb_eq in Hj. subst j. now rewrite lookup_insert_eq.
  - apply String.eqb_neq in Hj. now rewrite lookup_insert_ne.
Qed.

Lemma completed_reviewed_state ps q i upd :
  In i (completed (reviewed_state ps q i upd true)).
Proof.
  unfold reviewed_state. cbn [completed andb].
  destruct (includes (completed ps) i) eqn:Hi; cbn [negb].
  - now apply includes_In.
  - apply in_or_app. right. now left.
Qed.

Lemma later_reviewed_state ps q i upd :
  repeatLater (reviewed_state ps q i upd true)
  = Some (List.filter (fun fcId => negb (String.eqb fcId i)) q).
Proof. reflexivity. Qed.

Lemma done_outcome d :
  d = REVIEW_DIFFICULTY.GOOD \/ d = REVIEW_DIFFICULTY.EASY ->
  String.eqb d REVIEW_DIFFICULTY.GOOD || String.eqb d REVIEW_DIFFICULTY.EASY
  = true.
Proof. now intros [-> | ->]. Qed.

Lemma not_due_before now p due :
  dueDate p = Num due -> (0 <= now)%Z -> inject_Z now < due ->
  negb (truthy (dueDate p)) || isDue now p = false.
Proof.
  intros Hdue Hnow Hlt.
  assert (0 <= inject_Z now) as Hpos
    by (change 0 with (inject_Z 0); now rewrite <- Zle_Qle).
  unfold isDue. rewrite Hdue. unfold truthy, js_ge. cbn [ToNumber].
  rewrite (proj2 (Qeq_bool_false due 0)) by lra.
  now rewrite (proj2 (Qle_bool_false due (inject_Z now))) by lra.
Qed.

(** X16.  A card reviewed "good" or "easy" is not handed out again
    before its new due date: whatever [Math.random()] yields, a later
    [getNextFlashcard] at a time before that date returns, and the card
    it returns, if any, is another one. *)
Theorem reviewed_card_waits l ps alg st q i d now rnd due now' rnd' :
  repeatLater ps = Some q ->
  d = REVIEW_DIFFICULTY.GOOD \/ d = REVIEW_DIFFICULTY.EASY ->
  dueDate (fst (calculateReview alg now rnd (progress_of ps i) d)) = Num due ->
  (0 <= now')%Z ->
  inject_Z now' < due ->
  exists r,
    getNextFlashcard now' rnd' (snd (recordReview i d now rnd (loaded l ps alg, st)))
    = (Ret r, snd (recordReview i d now rnd (loaded l ps alg, st)))
    /\ forall fc p, r = Some (fc, p) -> id fc <> i.
Proof.
  intros Hq Hd Hdue Hnow Hlt.
  rewrite (run_recordReview _ _ _ _ q _ _ _ _ Hq), (done_outcome d Hd).
  cbn [snd].
  set (upd := fst (calculateReview alg now rnd (progress_of ps i) d)) in *.
  eexists. split.
  { apply (run_getNextFlashcard_exact _ _ _ _ _ _ _
             (later_reviewed_state ps q i upd)). }
  intros fc p Hr Hid.
  destruct (due_pick l (reviewed_state ps q i upd true) now') as [r1|] eqn:H1; cbn [first_of] in Hr.
  { rewrite Hr in H1. apply due_pick_Some in H1.
    destruct H1 as (_ & Hp & Hpass). subst p.
    rewrite progress_of_reviewed_state in Hpass.
    rewrite Hid, String.eqb_refl in Hpass.
    rewrite (not_due_before now' upd due Hdue Hnow Hlt) in Hpass.
    discriminate. }
  destruct (unshown_pick l (reviewed_state ps q i upd true) rnd') as [r2|] eqn:H2; cbn [first_of] in Hr.
  { rewrite Hr in H2. apply unshown_pick_Some in H2.
    destruct H2 as (_ & _ & Hnot). apply Hnot. rewrite Hid.
    apply completed_reviewed_state. }
  apply later_pick_Some in Hr. destruct Hr as (_ & _ & Hhead).
  rewrite Hid in Hhead.
  destruct (List.filter _ q) as [|j q'] eqn:Hf; [discriminate|].
  injection Hhead as ->.
  assert (In i (List.filter (fun fcId => negb (String.eqb fcId i)) q)) as Hin
    by (rewrite Hf; now left).
  apply filter_In in Hin. destruct Hin as [_ Hneq].
  now rewrite String.eqb_refl in Hneq.
Qed.

Lemma reviewed_card_waits_witness :
  exists r,
    getNextFlashcard 3000 (1 # 2)
      (snd (recordReview "fc-1" "good" 2000 0
              (loaded [fc1; fc2; fc3] one_later new_algorithm, empty_storage)))
    = (Ret r,
       snd (recordReview "fc-1" "good" 2000 0
              (loaded [fc1; fc2; fc3] one_later new_algorithm, empty_storage)))
    /\ forall fc p, r = Some (fc, p) -> id fc <> "fc-1".
Proof.
  refine (reviewed_card_waits [fc1; fc2; fc3] one_later new_algorithm
            empty_storage ["fc-1"] "fc-1" "good" 2000 0 82082000.00 3000
            (1 # 2) eq_refl (or_introl eq_refl) _ _ _).
  - vm_compute. reflexivity.
  - lia.
  - vm_compute. reflexivity.
Defined.

(** X17.  After [recordReview] of a card whose review count was a
    non-negative number, [getSchedulingStats] no longer counts the cards
    with that id as new, whatever the outcome; the other cards are
    counted as new exactly as before, and the total is unchanged. *)
Theorem reviewed_card_not_new l ps alg st q i d now rnd n now' :
  repeatLater ps = Some q ->
  reviewCount (progress_of ps i) = Num n ->
  0 <= n ->
  exists stats,
    getSchedulingStats now'
      (snd (recordReview i d now rnd (loaded l ps alg, st)))
    = (Ret stats, snd (recordReview i d now rnd (loaded l ps alg, st)))
    /\ new stats
       = count (fun fc => counts_new ps fc && negb (String.eqb (id fc) i)) l
    /\ total stats = length l.
Proof.
  intros Hq Hn Hpos.
  rewrite (run_recordReview _ _ _ _ q _ _ _ _ Hq). cbn [snd].
  set (upd := fst (calculateReview alg now rnd (progress_of ps i) d)).
  set (done := String.eqb d REVIEW_DIFFICULTY.GOOD
               || String.eqb d REVIEW_DIFFICULTY.EASY).
  assert (exists q', repeatLater (reviewed_state ps q i upd done) = Some q')
    as [q' Hq'] by (eexists; reflexivity).
  eexists. split; [apply (run_getSchedulingStats_exact _ _ _ _ q' _ Hq')|].
  cbn [new total]. split; [|reflexivity].
  unfold count. f_equal. apply filter_ext. intros fc.
  unfold counts_new. rewrite progress_of_reviewed_state.
  destruct (String.eqb (id fc) i) eqn:Hid; cbn [negb].
  - rewrite andb_false_r. unfold upd.
    rewrite calculateReview_review, review_reviewCount.
    unfold boundReviewCount. rewrite Hn. cbn.
    apply Qeq_bool_false. intros H. 
    assert (n + 1 == 0) as H' by exact H. lra.
  - now rewrite andb_true_r.
Qed.

Lemma reviewed_card_not_new_witness :
  exists stats,
    getSchedulingStats 3000
      (snd (recordReview "fc-3" "hard" 2000 0
              (loaded [fc1; fc2; fc3] two_reviewed new_algorithm,
               empty_storage)))
    = (Ret stats,
       snd (recordReview "fc-3" "hard" 2000 0
              (loaded [fc1; fc2; fc3] two_reviewed new_algorithm,
               empty_storage)))
    /\ new stats = 0%nat /\ total stats = 3%nat.
Proof.
  refine (reviewed_card_not_new [fc1; fc2; fc3] two_reviewed new_algorithm
            empty_storage [] "fc-3" "hard" 2000 0 0 3000 eq_refl _ _).
  - reflexivity.
  - vm_compute. discriminate.
Defined.

(** * Properties of the flashcard manager *)

Lemma run_getUnshownFlashcards_managing l ps st :
  getUnshownFlashcards (managing l ps, st)
  = (Ret (unshown_ids l ps), (managing l ps, st)).
Proof. reflexivity. Qed.

Lemma run_getProgressStats l ps st q :
  repeatLater ps = Some q ->
  getProgressStats (managing l ps, st)
  = (Ret {| ProgressStats.total := length l;
            ProgressStats.completed := length (completed ps);
            ProgressStats.repeatLater := length q;
            ProgressStats.unshown := length (unshown_ids l ps);
            ProgressStats.progress :=
              percentage (length (completed ps)) (length l) |},
     (managing l ps, st)).
Proof.
  intros Hq. unfold getProgressStats.
  erewrite run_bind; [|reflexivity]. cbv beta.
  cbn [fst managing flashcards progress]. rewrite Hq.
  erewrite run_bind; [|apply run_getUnshownFlashcards_managing].
  reflexivity.
Qed.

Lemma filter_split_length {A : Type} (f : A -> bool) l :
  (length (List.filter f l) + length (List.filter (fun x => negb (f x)) l)
   = length l)%nat.
Proof.
  induction l as [|x l IH]; [reflexivity|].
  cbn. destruct (f x); cbn; lia.
Qed.

Lemma completed_le_shown l ps :
  List.NoDup (completed ps) ->
  (forall i, In i (completed ps) -> In i (map id l)) ->
  (length (completed ps)
   <= length (List.filter (fun i => includes (completed ps) i) (map id l)))%nat.
Proof.
  intros Hnd Hsub. apply NoDup_incl_length; [exact Hnd|].
  intros i Hi. apply filter_In. split; [now apply Hsub|].
  now apply includes_In.
Qed.

Lemma shown_le_completed l ps :
  List.NoDup (map id l) ->
  (length (List.filter (fun i => includes (completed ps) i) (map id l))
   <= length (completed ps))%nat.
Proof.
  intros Hnd. apply NoDup_incl_length; [now apply List.NoDup_filter|].
  intros i Hi. apply filter_In in Hi. now apply includes_In.
Qed.

Lemma percentage_range c t : (c <= t)%nat -> 0 <= percentage c t <= 100.
Proof.
  intros Hle. unfold percentage.
  destruct (0 <? t)%nat eqn:Ht; [|lra].
  apply Nat.ltb_lt in Ht.
  assert (0 < inject_Z (Z.of_nat t)) as Hpos
    by (rewrite <- (Zlt_Qlt 0); lia).
  assert (0 <= inject_Z (Z.of_nat c)) as Hc
    by (rewrite <- (Zle_Qle 0); lia).
  assert (inject_Z (Z.of_nat c) <= inject_Z (Z.of_nat t)) as Hct
    by (rewrite <- Zle_Qle; lia).
  set (r := inject_Z (Z.of_nat c) / inject_Z (Z.of_nat t)).
  assert (0 <= r) as Hr0.
  { apply Qle_shift_div_l; [exact Hpos|]. lra. }
  assert (r <= 1) as Hr1.
  { apply Qle_shift_div_r; [exact Hpos|]. lra. }
  clearbody r. clear - Hr0 Hr1. split.
  - apply (Qle_trans _ (round_half_up 0));
      [vm_compute; discriminate|apply round_half_up_mono; lra].
  - apply (Qle_trans _ (round_half_up 100));
      [apply round_half_up_mono; lra|vm_compute; discriminate].
Qed.

(** X18.  On a loaded state [getProgressStats] changes nothing and
    reports the size of the catalog, of [completed], of the
    [repeatLater] queue and of the ids not in [completed].  When
    [completed] has no duplicates and holds ids of the catalog only, as
    [markAsDone] on catalog cards keeps it, completed and unshown
    together do not exceed the total, make it up exactly when the ids of
    the catalog are distinct, and the percentage lies between 0 and
    100. *)
Theorem getProgressStats_consistent l ps st q :
  repeatLater ps = Some q ->
  List.NoDup (completed ps) ->
  (forall i, In i (completed ps) -> In i (map id l)) ->
  exists stats,
    getProgressStats (managing l ps, st) = (Ret stats, (managing l ps, st))
    /\ ProgressStats.total stats = length l
    /\ ProgressStats.completed stats = length (completed ps)
    /\ ProgressStats.repeatLater stats = length q
    /\ (ProgressStats.completed stats + ProgressStats.unshown stats
        <= ProgressStats.total stats)%nat
    /\ (List.NoDup (map id l) ->
        (ProgressStats.completed stats + ProgressStats.unshown stats
         = ProgressStats.total stats)%nat)
    /\ 0 <= ProgressStats.progress stats <= 100.
Proof.
  intros Hq Hnd Hsub. eexists. split; [apply (run_getProgressStats _ _ _ q Hq)|].
  cbn [ProgressStats.total ProgressStats.completed ProgressStats.repeatLater
       ProgressStats.unshown ProgressStats.progress].
  pose proof (filter_split_length (fun i => includes (completed ps) i)
                (map id l)) as Hsplit.
  cbv beta in Hsplit. fold (unshown_ids l ps) in Hsplit.
  rewrite length_map in Hsplit.
  pose proof (completed_le_shown l ps Hnd Hsub) as Hle.
  repeat split.
  - lia.
  - intros Hids. pose proof (shown_le_completed l ps Hids). lia.
  - apply percentage_range. lia.
  - apply percentage_range. lia.
Qed.

Lemma getProgressStats_consistent_witness :
  exists stats,
    getProgressStats (managing [fc1; fc2; fc3] two_reviewed, empty_storage)
    = (Ret stats, (managing [fc1; fc2; fc3] two_reviewed, empty_storage))
    /\ ProgressStats.total stats = 3%nat
    /\ ProgressStats.completed stats = 2%nat
    /\ ProgressStats.repeatLater stats = 0%nat.
Proof.
  destruct (getProgressStats_consistent [fc1; fc2; fc3] two_reviewed
              empty_storage [] eq_refl)
    as (stats & Hrun & Htotal & Hdone & Hlater & _).
  - vm_compute. repeat constructor; cbn; intuition discriminate.
  - vm_compute. intuition.
  - exists stats. auto.
Defined.

(** ** Starting over *)

Lemma unshown_ids_none_completed l ps :
  completed ps = [] -> unshown_ids l ps = map id l.
Proof.
  intros Hc. unfold unshown_ids. rewrite Hc.
  apply forallb_filter_id. apply forallb_forall. reflexivity.
Qed.

Lemma percentage_none total : percentage 0 total = 0.
Proof.
  unfold percentage. destruct (0 <? total)%nat; [|reflexivity].
  unfold round_half_up.
  rewrite (Qfloor_comp _ (0 + (1 # 2))); [reflexivity|].
  apply Qplus_comp; [|reflexivity].
  change (inject_Z (Z.of_nat 0)) with 0. unfold Qdiv.
  now rewrite !Qmult_0_l.
Qed.

Lemma run_resetProgress fm st :
  resetProgress (fm, st)
  = (Ret tt,
     (managing (flashcards fm) empty_progress_state,
      snd (storage_saveProgress st empty_progress_state))).
Proof. now destruct st as [sto []]. Qed.

(** X19.  [resetProgress] returns on every state of the manager, also
    before the progress was loaded, and leaves the catalog alone; after
    it [getProgressStats] reports nothing completed, nothing queued and
    every card unshown.  A writable storage then holds the empty state;
    when the write fails the reset is in memory only: the storage keeps
    what it had, and the next [loadProgress] brings the old progress
    back. *)
Theorem resetProgress_starts_over fm st :
  exists s',
    resetProgress (fm, st) = (Ret tt, s')
    /\ fst s' = managing (flashcards fm) empty_progress_state
    /\ getProgressStats s'
       = (Ret {| ProgressStats.total := length (flashcards fm);
                 ProgressStats.completed := 0;
                 ProgressStats.repeatLater := 0;
                 ProgressStats.unshown := length (flashcards fm);
                 ProgressStats.progress := 0 |}, s')
    /\ (writable st = true -> stored (snd s') = Some empty_progress_state)
    /\ (writable st = false ->
        snd s' = st
        /\ loadProgress s'
           = (Ret tt, (managing (flashcards fm) (storage_getProgress st), st))).
Proof.
  eexists. split; [apply run_resetProgress|]. cbn [fst snd].
  split; [reflexivity|]. split; [|split].
  - rewrite (run_getProgressStats (flashcards fm) empty_progress_state _ []
               eq_refl).
    rewrite unshown_ids_none_completed by reflexivity.
    cbn [completed empty_progress_state length].
    now rewrite percentage_none, length_map.
  - intros Hw. unfold storage_saveProgress. now rewrite Hw.
  - intros Hw. unfold storage_saveProgress. rewrite Hw. cbn [snd].
    split; reflexivity.
Qed.

(** ** Installation *)

Lemma run_init response fm st :
  init response (fm, st)
  = (Ret tt,
     (managing (catalog_after response (flashcards fm)) (storage_getProgress st),
      st)).
Proof. now destruct response as [[l|]|], fm. Qed.

Lemma never_reviewed_empty fc :
  never_reviewed (with_progress empty_progress_state fc).
Proof. split; reflexivity. Qed.

(** X20.  [init] returns whatever the fetch of the catalog gives, and
    always loads the progress; a failed fetch leaves the catalog as it
    was.  On a fresh installation (nothing stored, scheduler wired to a
    new manager) the scheduler afterwards hands out the first card of
    the fetched catalog with the default record, whatever
    [Math.random()] yields, or null when the catalog is empty or was not
    fetched, and reports every card as new. *)
Theorem init_fresh_install response alg st now rnd :
  stored st = None ->
  exists s1,
    on_manager (init response)
      ({| flashcardManager := Some new_manager; algorithm := Some alg |}, st)
    = (Ret tt, s1)
    /\ s1 = (loaded (catalog_after response []) empty_progress_state alg, st)
    /\ getNextFlashcard now rnd s1
       = (Ret (match catalog_after response [] with
               | fc :: _ => Some (fc, default_progress)
               | [] => None
               end), s1)
    /\ getSchedulingStats now s1
       = (Ret {| due := 0; new := length (catalog_after response []);
                 later := 0; total := length (catalog_after response []) |},
          s1).
Proof.
  intros Hst. eexists. split; [|split; [reflexivity|]].
  { unfold on_manager. cbn [fst snd flashcardManager algorithm].
    rewrite run_init. unfold storage_getProgress. rewrite Hst. reflexivity. }
  set (l := catalog_after response []). split.
  - destruct l as [|fc l'].
    + rewrite (run_getNextFlashcard_exact [] empty_progress_state _ _ [] _ _
                 eq_refl).
      reflexivity.
    + erewrite run_getNextFlashcard_due; [reflexivity|].
      assert (due_candidates (fc :: l') empty_progress_state now
              = map (with_progress empty_progress_state) (fc :: l')) as ->.
      { unfold due_candidates. apply forallb_filter_id.
        apply forallb_forall. intros x Hx. apply in_map_iff in Hx.
        now destruct Hx as (c & <- & Hc). }
      rewrite js_sort_never_reviewed_stable; [reflexivity|].
      apply List.Forall_forall. intros x Hx. apply in_map_iff in Hx.
      destruct Hx as (c & <- & Hc). apply never_reviewed_empty.
  - rewrite (run_getSchedulingStats_exact l empty_progress_state _ _ [] _
               eq_refl).
    assert (count (counts_due now empty_progress_state) l = 0%nat) as ->.
    { induction l as [|c l' IH]; [reflexivity|].
      rewrite count_cons, IH. reflexivity. }
    assert (count (counts_new empty_progress_state) l = length l) as ->.
    { induction l as [|c l' IH]; [reflexivity|].
      rewrite count_cons, IH. reflexivity. }
    assert (count (counts_later []) l = 0%nat) as ->.
    { induction l as [|c l' IH]; [reflexivity|].
      rewrite count_cons, IH. reflexivity. }
    reflexivity.
Qed.

Lemma init_fresh_install_witness :
  exists s1,
    on_manager (init (Some (Some [fc1; fc2; fc3])))
      ({| flashcardManager := Some new_manager;
          algorithm := Some new_algorithm |}, empty_storage)
    = (Ret tt, s1)
    /\ getNextFlashcard 2000 (9 # 10) s1 = (Ret (Some (fc1, default_progress)), s1).
Proof.
  destruct (init_fresh_install (Some (Some [fc1; fc2; fc3])) new_algorithm
              empty_storage 2000 (9 # 10) eq_refl)
    as (s1 & Hrun & _ & Hnext & _).
  exists s1. split; [exact Hrun|exact Hnext].
Defined.

(** ** Marking as done *)

Lemma run_markAsDone_managing l ps st i :
  markAsDone i (managing l ps, st)
  = (Ret tt,
     if includes (completed ps) i then (managing l ps, st)
     else (managing l
             {| completed := completed ps ++ [i];
                repeatLater := repeatLater ps;
                flashcardData := flashcardData ps |},
           snd (storage_saveProgress st
                  {| completed := completed ps ++ [i];
                     repeatLater := repeatLater ps;
                     flashcardData := flashcardData ps |}))).
Proof.
  unfold markAsDone, mbind, M_bind, bind, this. cbn.
  destruct (includes (completed ps) i); [reflexivity|].
  now destruct st as [sto []].
Qed.

Lemma filter_twice {A : Type} (f g : A -> bool) l :
  List.filter g (List.filter f l) = List.filter (fun x => f x && g x) l.
Proof.
  induction l as [|x l IH]; [reflexivity|].
  cbn. destruct (f x); cbn; [|exact IH]. destruct (g x); now rewrite IH.
Qed.

Lemma In_push_absent q i j : In j (push_absent q i) <-> In j q \/ j = i.
Proof.
  unfold push_absent. destruct (includes q i) eqn:H.
  - apply includes_In in H. split; [auto|]. now intros [Hj | ->].
  - rewrite in_app_iff. cbn. intuition.
Qed.

(** X21.  On a loaded state [markAsDone] returns and leaves [completed]
    with the id appended unless it is there already, the queue and the
    records untouched; a [completed] list without duplicates stays so
    and then holds the id exactly once; a second call changes nothing,
    neither in the manager nor in the storage; and the card is no longer
    among the unshown ones, while the other cards are as before. *)
Theorem markAsDone_once l ps st i :
  List.NoDup (completed ps) ->
  exists ps' st',
    markAsDone i (managing l ps, st) = (Ret tt, (managing l ps', st'))
    /\ completed ps' = push_absent (completed ps) i
    /\ repeatLater ps' = repeatLater ps
    /\ flashcardData ps' = flashcardData ps
    /\ List.NoDup (completed ps')
    /\ count_occ String.string_dec (completed ps') i = 1%nat
    /\ markAsDone i (managing l ps', st') = (Ret tt, (managing l ps', st'))
    /\ getUnshownFlashcards (managing l ps', st')
       = (Ret (List.filter (fun j => negb (String.eqb j i)) (unshown_ids l ps)),
          (managing l ps', st')).
Proof.
  intros Hnd.
  exists {| completed := push_absent (completed ps) i;
            repeatLater := repeatLater ps;
            flashcardData := flashcardData ps |}.
  exists (if includes (completed ps) i then st
          else snd (storage_saveProgress st
                      {| completed := completed ps ++ [i];
                         repeatLater := repeatLater ps;
                         flashcardData := flashcardData ps |})).
  split.
  { rewrite run_markAsDone_managing. unfold push_absent.
    destruct (includes (completed ps) i); [|reflexivity].
    now destruct ps. }
  cbn [completed repeatLater flashcardData].
  repeat split.
  - now apply NoDup_push_absent.
  - now apply count_push_absent.
  - rewrite run_markAsDone_managing. cbn [completed].
    now rewrite includes_push_absent.
  - rewrite run_getUnshownFlashcards_managing. f_equal. f_equal.
    unfold unshown_ids. cbn [completed]. rewrite filter_twice.
    apply filter_ext. intros j.
    destruct (String.eqb j i) eqn:Hji.
    + apply String.eqb_eq in Hji. subst j. rewrite includes_push_absent.
      cbn [negb]. now rewrite andb_false_r.
    + cbn [negb]. rewrite andb_true_r. f_equal.
      apply String.eqb_neq in Hji.
      destruct (includes (completed ps) j) eqn:H2.
      * apply includes_In. apply In_push_absent. left.
        now apply includes_In.
      * destruct (includes (push_absent (completed ps) i) j) eqn:H1;
          [|reflexivity].
        apply includes_In, In_push_absent in H1.
        destruct H1 as [H1 | H1]; [|contradiction].
        apply includes_In in H1. congruence.
Qed.

Lemma markAsDone_once_witness :
  exists ps' st',
    markAsDone "fc-3" (managing [fc1; fc2; fc3] two_reviewed, empty_storage)
    = (Ret tt, (managing [fc1; fc2; fc3] ps', st'))
    /\ completed ps' = ["fc-1"; "fc-2"; "fc-3"].
Proof.
  destruct (markAsDone_once [fc1; fc2; fc3] two_reviewed empty_storage "fc-3")
    as (ps' & st' & Hrun & Hdone & _).
  - vm_compute. repeat constructor; cbn; intuition discriminate.
  - exists ps', st'. split; [exact Hrun|]. rewrite Hdone. reflexivity.
Defined.

(** ** The later queue *)

Lemma filter_push_absent q i :
  ~ In i q ->
  List.filter (fun fcId => negb (String.eqb fcId i)) (q ++ [i]) = q.
Proof.
  intros Hnot. rewrite List.filter_app. cbn. rewrite String.eqb_refl. cbn.
  rewrite app_nil_r. apply forallb_filter_id. apply forallb_forall.
  intros j Hj. destruct (String.eqb j i) eqn:Hji; [|reflexivity].
  apply String.eqb_eq in Hji. now subst.
Qed.

Lemma run_removeFromLater_managing l ps st q i :
  repeatLater ps = Some q ->
  removeFromLater i (managing l ps, st)
  = (Ret tt,
     (managing l
        {| completed := completed ps;
           repeatLater :=
             Some (List.filter (fun fcId => negb (String.eqb fcId i)) q);
           flashcardData := flashcardData ps |},
      snd (storage_saveProgress st
             {| completed := completed ps;
                repeatLater :=
                  Some (List.filter (fun fcId => negb (String.eqb fcId i)) q);
                flashcardData := flashcardData ps |}))).
Proof.
  intros Hq. unfold removeFromLater, mbind, M_bind, bind, this.
  cbn. rewrite Hq. now destruct st as [sto []].
Qed.

Lemma run_FlashcardManager_markForLater l ps st q i :
  repeatLater ps = Some q ->
  FlashcardManager_markForLater i (managing l ps, st)
  = (Ret tt,
     (managing l
        {| completed := completed ps;
           repeatLater := Some (push_absent q i);
           flashcardData := flashcardData ps |},
      if includes q i then st
      else snd (storage_saveProgress st
                  {| completed := completed ps;
                     repeatLater := Some (q ++ [i]);
                     flashcardData := flashcardData ps |}))).
Proof.
  intros Hq. unfold FlashcardManager_markForLater, push_absent,
    mbind, M_bind, bind, this.
  cbn. rewrite Hq. destruct (includes q i); cbn; [reflexivity|].
  now destruct st as [sto []].
Qed.

(** X22.  On a loaded state with a queue, [removeFromLater] returns and
    leaves the queue without the id, the other ids in their order,
    [completed] and the records untouched, and a writable storage
    holding that state.  After [markForLater] of an id that was not
    queued it gives back the state there was before. *)
Theorem removeFromLater_removes l ps st q i :
  repeatLater ps = Some q ->
  exists ps' st',
    removeFromLater i (managing l ps, st) = (Ret tt, (managing l ps', st'))
    /\ repeatLater ps'
       = Some (List.filter (fun fcId => negb (String.eqb fcId i)) q)
    /\ (forall j, In j (List.filter (fun fcId => negb (String.eqb fcId i)) q)
                  <-> In j q /\ j <> i)
    /\ completed ps' = completed ps
    /\ flashcardData ps' = flashcardData ps
    /\ (writable st = true -> stored st' = Some ps')
    /\ (~ In i q ->
        exists st'',
          (FlashcardManager_markForLater i;; removeFromLater i)
            (managing l ps, st)
          = (Ret tt, (managing l ps, st''))
          /\ (writable st = true -> stored st'' = Some ps)).
Proof.
  intros Hq. eexists _, _.
  split; [apply (run_removeFromLater_managing _ _ _ q), Hq|].
  cbn [completed repeatLater flashcardData].
  split; [reflexivity|]. split; [|split; [reflexivity|split; [reflexivity|]]].
  { intros j. rewrite filter_In. split; intros [Hj Hne]; (split; [exact Hj|]).
    - intros ->. now rewrite String.eqb_refl in Hne.
    - apply String.eqb_neq in Hne. now rewrite Hne. }
  split.
  { intros Hw. unfold storage_saveProgress. now rewrite Hw. }
  intros Hnot.
  assert (includes q i = false) as Hinc.
  { destruct (includes q i) eqn:H; [|reflexivity].
    now apply includes_In in H. }
  exists (snd (storage_saveProgress
                 (snd (storage_saveProgress st
                         {| completed := completed ps;
                            repeatLater := Some (q ++ [i]);
                            flashcardData := flashcardData ps |})) ps)).
  split.
  - erewrite run_bind;
      [|apply (run_FlashcardManager_markForLater _ _ _ q), Hq].
    rewrite Hinc.
    erewrite run_removeFromLater_managing; [|reflexivity].
    unfold push_absent. rewrite Hinc. cbn [completed flashcardData].
    rewrite (filter_push_absent q i Hnot), <- Hq. now destruct ps.
  - intros Hw. destruct st as [sto w]. cbn [writable] in Hw. subst w.
    reflexivity.
Qed.

Lemma removeFromLater_removes_witness :
  exists ps' st',
    removeFromLater "fc-1" (managing [fc1; fc2; fc3] one_later, empty_storage)
    = (Ret tt, (managing [fc1; fc2; fc3] ps', st'))
    /\ repeatLater ps' = Some [].
Proof.
  destruct (removeFromLater_removes [fc1; fc2; fc3] one_later empty_storage
              ["fc-1"] "fc-1" eq_refl)
    as (ps' & st' & Hrun & Hlater & _).
  exists ps', st'. split; [exact Hrun|exact Hlater].
Defined.

(** ** Shown and unshown cards *)

(** X23.  On a loaded state [areAllFlashcardsShown] answers true exactly
    when the id of every card of the catalog is in [completed], and
    [getUncompletedFlashcards] returns the list [getUnshownFlashcards]
    returns.  On a manager whose progress is not loaded yet
    [getUnshownFlashcards] and [areAllFlashcardsShown] throw, while
    [getUncompletedFlashcards] throws only when the catalog has a card
    and returns the empty list otherwise. *)
Theorem areAllFlashcardsShown_iff l ps st :
  (exists b,
     areAllFlashcardsShown (managing l ps, st) = (Ret b, (managing l ps, st))
     /\ (b = true <-> forall fc, In fc l -> In (id fc) (completed ps)))
  /\ getUncompletedFlashcards (managing l ps, st)
     = getUnshownFlashcards (managing l ps, st)
  /\ (let s := ({| flashcards := l; progress := None |}, st) in
      getUnshownFlashcards s = (Throw null_progress, s)
      /\ areAllFlashcardsShown s = (Throw null_progress, s)
      /\ getUncompletedFlashcards s
         = (match l with [] => Ret [] | _ => Throw null_progress end, s)).
Proof.
  split; [|split].
  - eexists. split.
    { unfold areAllFlashcardsShown.
      erewrite run_bind; [|apply run_getUnshownFlashcards_managing].
      reflexivity. }
    rewrite Nat.eqb_eq, length_zero_iff_nil. unfold unshown_ids. split.
    + intros Hnil fc Hfc. apply includes_In.
      destruct (includes (completed ps) (id fc)) eqn:H; [reflexivity|].
      assert (In (id fc)
                (List.filter (fun i => negb (includes (completed ps) i))
                             (map id l))) as Hin.
      { apply filter_In. split; [now apply in_map|]. now rewrite H. }
      rewrite Hnil in Hin. contradiction.
    + intros Hall.
      destruct (List.filter _ (map id l)) as [|j u] eqn:Hf; [reflexivity|].
      assert (In j (List.filter (fun i => negb (includes (completed ps) i))
                                (map id l))) as Hin
        by (rewrite Hf; now left).
      apply filter_In in Hin. destruct Hin as [Hj Hnot].
      apply in_map_iff in Hj. destruct Hj as (fc & <- & Hfc).
      apply Hall, includes_In in Hfc. now rewrite Hfc in Hnot.
  - reflexivity.
  - cbv zeta. repeat split. now destruct l.
Qed.

(** * Properties of the list of excluded pages *)

Lemma addExcludedPage_listed st url :
  includes (getExcludedPages st) url = true ->
  addExcludedPage st url = (true, st).
Proof. intros H. unfold addExcludedPage. now rewrite H. Qed.

Lemma addExcludedPage_written st url :
  includes (getExcludedPages st) url = false ->
  pagesWritable st = true ->
  addExcludedPage st url
  = (true, {| storedPages := Some (getExcludedPages st ++ [url]);
              pagesWritable := true |}).
Proof.
  intros H Hw. unfold addExcludedPage, saveExcludedPages.
  now rewrite H, Hw.
Qed.

Lemma addExcludedPage_failed st url :
  includes (getExcludedPages st) url = false ->
  pagesWritable st = false ->
  addExcludedPage st url = (false, st).
Proof.
  intros H Hw. unfold addExcludedPage, saveExcludedPages.
  now rewrite H, Hw.
Qed.

Lemma removeExcludedPage_written st url :
  pagesWritable st = true ->
  removeExcludedPage st url
  = (true, {| storedPages :=
                Some (List.filter (fun page => negb (String.eqb page url))
                                  (getExcludedPages st));
              pagesWritable := true |}).
Proof.
  intros Hw. unfold removeExcludedPage, saveExcludedPages. now rewrite Hw.
Qed.

Lemma not_In_filter_neq q i :
  ~ In i (List.filter (fun j => negb (String.eqb j i)) q).
Proof.
  intros Hin. apply filter_In in Hin. destruct Hin as [_ Hne].
  now rewrite String.eqb_refl in Hne.
Qed.

(** X24.  [addExcludedPage] leaves the list with the page appended
    unless it is there already, so that a list without duplicates stays
    so, and a second call changes nothing; it answers true also when
    nothing was written because the page was listed, and false only when
    a write was due and failed, in which case the list is as before.
    [removeExcludedPage] leaves the list without the page, the other
    pages in their order, and after [addExcludedPage] of a page that was
    not listed gives the list there was before. *)
Theorem excluded_pages_add_remove st url :
  getExcludedPages (snd (addExcludedPage st url))
  = (if pagesWritable st then push_absent (getExcludedPages st) url
     else getExcludedPages st)
  /\ fst (addExcludedPage st url)
     = (pagesWritable st || includes (getExcludedPages st) url)
  /\ (List.NoDup (getExcludedPages st) ->
      List.NoDup (getExcludedPages (snd (addExcludedPage st url))))
  /\ addExcludedPage (snd (addExcludedPage st url)) url
     = (fst (addExcludedPage st url), snd (addExcludedPage st url))
  /\ (pagesWritable st = true ->
      getExcludedPages (snd (removeExcludedPage st url))
      = List.filter (fun page => negb (String.eqb page url))
                    (getExcludedPages st)
      /\ ~ In url (getExcludedPages (snd (removeExcludedPage st url)))
      /\ (~ In url (getExcludedPages st) ->
          getExcludedPages
            (snd (removeExcludedPage (snd (addExcludedPage st url)) url))
          = getExcludedPages st)).
Proof.
  assert (pagesWritable st = true ->
          getExcludedPages (snd (removeExcludedPage st url))
          = List.filter (fun page => negb (String.eqb page url))
                        (getExcludedPages st)) as Hremove.
  { intros Hw. now rewrite (removeExcludedPage_written st url Hw). }
  destruct (includes (getExcludedPages st) url) eqn:Hinc.
  - rewrite (addExcludedPage_listed st url Hinc). cbn [fst snd].
    rewrite (addExcludedPage_listed st url Hinc).
    unfold push_absent. rewrite Hinc, orb_true_r.
    split; [now destruct (pagesWritable st)|].
    split; [reflexivity|]. split; [auto|]. split; [reflexivity|].
    intros Hw. split; [now apply Hremove|]. split.
    + rewrite (Hremove Hw). apply not_In_filter_neq.
    + intros Hnot. apply includes_In in Hinc. contradiction.
  - destruct (pagesWritable st) eqn:Hw.
    + rewrite (addExcludedPage_written st url Hinc Hw). cbn [fst snd].
      unfold push_absent. rewrite Hinc.
      split; [reflexivity|]. split; [reflexivity|]. split; [|split].
      * intros Hnd. cbn [getExcludedPages storedPages].
        apply NoDup_ListNoDup, NoDup_app.
        split; [now apply NoDup_ListNoDup|]. split; [|apply NoDup_singleton].
        intros x Hx Hin. apply list_elem_of_In in Hx.
        apply list_elem_of_In in Hin. destruct Hin as [<- | []].
        apply includes_In in Hx. congruence.
      * apply addExcludedPage_listed. cbn [getExcludedPages storedPages].
        apply includes_In, in_or_app. right. now left.
      * intros _. split; [now apply Hremove|]. split.
        { rewrite (Hremove eq_refl). apply not_In_filter_neq. }
        intros Hnot. rewrite removeExcludedPage_written by reflexivity.
        cbn [snd getExcludedPages storedPages].
        now apply filter_push_absent.
    + rewrite (addExcludedPage_failed st url Hinc Hw). cbn [fst snd].
      rewrite (addExcludedPage_failed st url Hinc Hw).
      split; [reflexivity|]. split; [reflexivity|]. split; [auto|].
      split; [reflexivity|]. discriminate.
Qed.

(** * The failures of the scheduler's operations *)

(** ** A read the storage does not answer *)

(** With a read that is answered the methods are those of the same names
    outside the module. *)
Lemma loadProgress_answered s :
  StorageRead.loadProgress StorageRead.Answers s = loadProgress s.
Proof. reflexivity. Qed.

Lemma FlashcardManager_markForLater_answered i s :
  StorageRead.FlashcardManager_markForLater StorageRead.Answers i s
  = FlashcardManager_markForLater i s.
Proof. reflexivity. Qed.







(** ** A progress state without its queue *)


Section NoQueue.
Variables (l : list Flashcard) (ps : ProgressState)
          (alg : SpacedRepetitionAlgorithm) (st : StorageManager).
Hypothesis Hnone : repeatLater ps = None.






End NoQueue.



